(** * Autotune dispatch core: bandit registries, dispatch interface and
      selection sessions

    A shallow embedding of [aten/src/ATen/native/autotune/dispatch/core.cpp]
    and the properties its specification states about it.

    Conventions of the embedding:
    - a C++ exception ([TORCH_INTERNAL_ASSERT], [flat_hash_map::at]) is a
      [Fault] result; the state reached when it was thrown is kept, as the
      singletons keep theirs;
    - [size_t] values are integers in [0, 2^64) with the wrap-around of
      [++] written out;
    - [ska::flat_hash_map] is a [gmap], [std::vector] a [list];
    - a [std::unique_ptr<T>&] handed out by a registry is modelled by
      reading the stored instance and writing the mutated one back under
      the same key. *)

From Stdlib Require Import ZArith Lia String.
From stdpp Require Import gmap list fin finite.

Local Open Scope Z_scope.

(** ** Faults and the state-and-fault monad *)

(** The exceptions [core.cpp] can raise, one constructor per throwing
    site (or family of identical sites). *)
Inductive Fault :=
| CouldNotSelectBandit   (* TORCH_INTERNAL_ASSERT(false, "Could not select bandit.") *)
| ChoiceIsTotalCount     (* TORCH_INTERNAL_ASSERT(choice != Implementation::TOTAL_COUNT) *)
| NoImplementations      (* "... however no implemenations are available." *)
| FinishCalledTwice      (* TORCH_INTERNAL_ASSERT(!record_finished_, "finish() called twice.") *)
| KeyNotInMap            (* bandits_.at(key) on an absent key *)
| NullBandit.            (* bandits_[k]-> on a key that was never stored *)

Inductive Result (A : Type) :=
| OK (a : A)
| Err (e : Fault).
Arguments OK {A} a.
Arguments Err {A} e.

Definition is_OK {A} (r : Result A) : bool :=
  match r with OK _ => true | Err _ => false end.

(** A computation over a state [S] that returns a value or throws; the
    state is returned in both cases. *)
Definition M (S A : Type) : Type := S -> Result A * S.

Definition ret {S A} (a : A) : M S A := fun s => (OK a, s).

Definition throw {S A} (e : Fault) : M S A := fun s => (Err e, s).

Definition bind {S A B} (m : M S A) (k : A -> M S B) : M S B :=
  fun s =>
    match m s with
    | (OK a, s') => k a s'
    | (Err e, s') => (Err e, s')
    end.

Notation "'do' x <- m ; k" := (bind m (fun x => k))
  (at level 10, x name, m at level 100, k at level 200).

(** [TORCH_INTERNAL_ASSERT(cond, ...)]. *)
Definition torch_internal_assert {S} (cond : bool) (e : Fault) : M S unit :=
  if cond then ret tt else throw e.

Definition gets {S A} (f : S -> A) : M S A := fun s => (OK (f s), s).

Definition modify {S} (f : S -> S) : M S unit := fun s => (OK tt, f s).

(** Runs a computation on a component of a larger state. *)
Definition zoom {S T A} (proj : S -> T) (put : T -> S -> S) (m : M T A)
  : M S A :=
  fun s => let '(r, t) := m (proj s) in (r, put t s).

(** ** [size_t] *)

Definition size_t_modulus : Z := 2 ^ 64.

Definition to_size_t (z : Z) : Z := z mod size_t_modulus.

(** [x++] on a [size_t]. *)
Definition size_t_incr (x : Z) : Z := to_size_t (x + 1).

(** ** [api::AvailableBandits] and [api::Implementation] *)

(** Modelled from the spec: [api::AvailableBandits] is declared in
    [autotune/api.h] (not in src/).  [core.cpp] names [kRandomChoice],
    [kGaussian] and [kNone]; every other value takes the [default:] branch
    of the switches, as [kNone] does. *)
Inductive AvailableBandits :=
| kRandomChoice
| kGaussian
| kNone.

Global Instance AvailableBandits_eq_dec : EqDecision AvailableBandits.
Proof. solve_decision. Defined.

Section Autotune.

(** [KernelEntryPoint::MapKey], hashed by [KernelEntryPoint::Hash]. *)
Context {MapKey : Type} `{Countable MapKey}.

(** [KernelEntryPoint::cost_estimates]: opaque to [core.cpp], handed to the
    bandit constructor unread. *)
Context {cost_estimates : Type}.

(** The state a cost estimator (a [std::function]) can read and write
    when it is invoked: whatever lies outside the dispatch core. *)
Context {Env : Type}.

(** The number of concrete candidate implementations among the
    enumerators of [api::Implementation]. *)
Context {n_impl : nat}.

(** Modelled from the spec: [api::Implementation] is declared in
    [autotune/api.h] (not in src/).  It enumerates the concrete candidate
    implementations, then [kFallback], [kDisabled] and the final
    enumerator [TOTAL_COUNT], which counts the values before it. *)
Inductive Implementation :=
| kImpl (i : fin n_impl)
| kFallback
| kDisabled
| TOTAL_COUNT.

Global Instance Implementation_eq_dec : EqDecision Implementation.
Proof. solve_decision. Defined.

Global Instance kImpl_inj : Inj (=) (=) kImpl.
Proof. intros i j Hij. by injection Hij. Qed.

(** [static_cast<size_t>(choice)]. *)
Definition static_cast_size_t (c : Implementation) : nat :=
  match c with
  | kImpl i => fin_to_nat i
  | kFallback => n_impl
  | kDisabled => S n_impl
  | TOTAL_COUNT => S (S n_impl)
  end.

Definition is_real (c : Implementation) : bool :=
  match c with kImpl _ => true | _ => false end.

(** The real implementation identifiers, in enumerator order. *)
Definition real_implementations : list Implementation :=
  kImpl <$> enum (fin n_impl).

(** The state-passing form of [std::function<cost_estimates()>]. *)
Definition CostFn : Type := Env -> cost_estimates * Env.

(** ** [bandits::Bandit] *)

(** The interface [ActiveBandits<T>] requires of [T] (the
    [static_assert] on [std::is_base_of<bandits::Bandit, T>]): a
    constructor from cost estimates and a seed, and the three virtual
    calls [core.cpp] makes.  [choose] may advance the instance's random
    source, so it returns the instance as well. *)
Class Bandit (T : Type) := {
  make_unique : cost_estimates -> Z -> T;
  choose : T -> Implementation * T;
  update : Implementation -> Z -> T -> T;
  summarize : MapKey -> T -> string;
}.

(** ** [ActiveBandits<T>] *)

Record ActiveBandits (T : Type) := mkActiveBandits {
  next_seed_ : Z;
  ordered_keys_ : list MapKey;
  bandits_ : gmap MapKey T;
}.
Arguments mkActiveBandits {T} _ _ _.
Arguments next_seed_ {T} _.
Arguments ordered_keys_ {T} _.
Arguments bandits_ {T} _.

(** The private constructor: [next_seed_{0}], empty vector, empty map. *)
Definition ActiveBandits_new {T} : ActiveBandits T :=
  mkActiveBandits 0 [] ∅.

Section Registry.
Context {T : Type} `{Bandit T}.

(** A registry together with the environment of the cost estimators. *)
Definition RegState : Type := ActiveBandits T * Env.

(** [bandits_.at(key)]. *)
Definition bandits_at (key : MapKey) : M RegState T :=
  fun s =>
    match bandits_ (fst s) !! key with
    | Some b => (OK b, s)
    | None => (Err KeyNotInMap, s)
    end.

Definition push_ordered_key (key : MapKey) : M RegState unit :=
  modify (fun '(r, e) =>
    (mkActiveBandits (next_seed_ r) (ordered_keys_ r ++ [key]) (bandits_ r), e)).

(** [cost_fn()]. *)
Definition call_cost_fn (cost_fn : CostFn) : M RegState cost_estimates :=
  fun '(r, e) => let '(c, e') := cost_fn e in (OK c, (r, e')).

(** [bandits_[key] = std::make_unique<T>(cost_estimates, next_seed_)]. *)
Definition store_new_bandit (key : MapKey) (c : cost_estimates)
  : M RegState unit :=
  modify (fun '(r, e) =>
    (mkActiveBandits (next_seed_ r) (ordered_keys_ r)
       (<[key := make_unique c (next_seed_ r)]> (bandits_ r)), e)).

(** [next_seed_++]. *)
Definition incr_next_seed : M RegState unit :=
  modify (fun '(r, e) =>
    (mkActiveBandits (size_t_incr (next_seed_ r)) (ordered_keys_ r)
       (bandits_ r), e)).

(** [ActiveBandits::get(key, cost_fn)], the get-or-create overload. *)
Definition ActiveBandits_get (key : MapKey) (cost_fn : CostFn)
  : M RegState T :=
  do found <- gets (fun s => bool_decide (is_Some (bandits_ (fst s) !! key)));
  do _ <- (if negb found then
              do _ <- push_ordered_key key;
              do c <- call_cost_fn cost_fn;
              do _ <- store_new_bandit key c;
              incr_next_seed
            else ret tt);
  bandits_at key.

(** [ActiveBandits::get(key)], the lookup-only overload. *)
Definition ActiveBandits_get_existing (key : MapKey) : M RegState T :=
  bandits_at key.

(** Writes a mutated instance back under its key: the effect of calling
    a non-const member through the [unique_ptr<T>&] that [get] returned. *)
Definition write_back (key : MapKey) (b : T) : M RegState unit :=
  modify (fun '(r, e) =>
    (mkActiveBandits (next_seed_ r) (ordered_keys_ r)
       (<[key := b]> (bandits_ r)), e)).

(** [ActiveBandits::summarize()]: one report per key of
    [ordered_keys_], in order.  [bandits_[k]] on an absent key would
    store a null pointer and dereference it. *)
Fixpoint summarize_keys (keys : list MapKey) (m : gmap MapKey T)
  : Result (list string) :=
  match keys with
  | [] => OK []
  | k :: keys' =>
      match m !! k with
      | None => Err NullBandit
      | Some b =>
          match summarize_keys keys' m with
          | OK out => OK (summarize k b :: out)
          | Err e => Err e
          end
      end
  end.

Definition ActiveBandits_summarize : M RegState (list string) :=
  fun s => (summarize_keys (ordered_keys_ (fst s)) (bandits_ (fst s)), s).

(** [ActiveBandits::reset()]. *)
Definition ActiveBandits_reset : M RegState unit :=
  modify (fun '(_, e) => (mkActiveBandits 0 [] ∅, e)).

(** [registry.get(key, cost_fn)->choose()]. *)
Definition get_choose (key : MapKey) (cost_fn : CostFn)
  : M RegState Implementation :=
  do b <- ActiveBandits_get key cost_fn;
  let '(choice, b') := choose b in
  do _ <- write_back key b';
  ret choice.

(** [registry.get(key)->update(choice, delta_ns)]. *)
Definition get_update (key : MapKey) (choice : Implementation) (delta_ns : Z)
  : M RegState unit :=
  do b <- ActiveBandits_get_existing key;
  write_back key (update choice delta_ns b).

(** *** Sequences of calls on one registry *)

(** The uses [core.cpp] makes of a registry: the two [get] overloads
    (alone or followed by the member call made through the returned
    reference), [summarize] and [reset]. *)
Inductive RegCall :=
| RegGet (key : MapKey) (cost_fn : CostFn)
| RegGetExisting (key : MapKey)
| RegGetChoose (key : MapKey) (cost_fn : CostFn)
| RegGetUpdate (key : MapKey) (choice : Implementation) (delta_ns : Z)
| RegSummarize
| RegReset.

Definition is_RegReset (c : RegCall) : bool :=
  match c with RegReset => true | _ => false end.

Definition forget {S A} (m : M S A) : M S unit :=
  fun s => let '(r, s') := m s in
           (match r with OK _ => OK tt | Err e => Err e end, s').

Definition do_reg_call (c : RegCall) : M RegState unit :=
  match c with
  | RegGet key cost_fn => forget (ActiveBandits_get key cost_fn)
  | RegGetExisting key => forget (ActiveBandits_get_existing key)
  | RegGetChoose key cost_fn => forget (get_choose key cost_fn)
  | RegGetUpdate key choice delta_ns => get_update key choice delta_ns
  | RegSummarize => forget ActiveBandits_summarize
  | RegReset => ActiveBandits_reset
  end.

(** Runs the calls in order; a caller may catch a fault and go on, so
    the run continues after one. *)
Fixpoint run_reg_calls (cs : list RegCall) (s : RegState) : RegState :=
  match cs with
  | [] => s
  | c :: cs' => run_reg_calls cs' (snd (do_reg_call c s))
  end.

(** *** Interleaved execution of [get(key, cost_fn)] *)

(** The statements of [ActiveBandits::get(key, cost_fn)] as program
    points of one thread executing it.  Each statement is taken to run
    atomically and to see the other threads' writes at once, the most
    favourable reading of code that takes no lock. *)
Inductive GetPc :=
| PcFind                          (* if (bandits_.find(key) == bandits_.end()) *)
| PcPushBack                      (* ordered_keys_.push_back(key); *)
| PcCostFn                        (* auto cost_estimates = cost_fn(); *)
| PcStore (c : cost_estimates)    (* bandits_[key] = make_unique<T>(...); *)
| PcIncrSeed                      (* next_seed_++; *)
| PcAt                            (* return bandits_.at(key); *)
| PcReturned (r : Result T).

Definition get_step (key : MapKey) (cost_fn : CostFn) (pc : GetPc)
    (s : RegState) : GetPc * RegState :=
  match pc with
  | PcFind =>
      (if bool_decide (is_Some (bandits_ (fst s) !! key))
       then PcAt else PcPushBack, s)
  | PcPushBack => (PcCostFn, snd (push_ordered_key key s))
  | PcCostFn =>
      match call_cost_fn cost_fn s with
      | (OK c, s') => (PcStore c, s')
      | (Err e, s') => (PcReturned (Err e), s')
      end
  | PcStore c => (PcIncrSeed, snd (store_new_bandit key c s))
  | PcIncrSeed => (PcAt, snd (incr_next_seed s))
  | PcAt => let '(r, s') := bandits_at key s in (PcReturned r, s')
  | PcReturned r => (PcReturned r, s)
  end.

(** A thread inside a [get(key, cost_fn)] call. *)
Record GetThread := mkGetThread {
  th_key : MapKey;
  th_cost_fn : CostFn;
  th_pc : GetPc;
}.

Definition start_get (key : MapKey) (cost_fn : CostFn) : GetThread :=
  mkGetThread key cost_fn PcFind.

Definition has_returned (t : GetThread) : bool :=
  match th_pc t with PcReturned _ => true | _ => false end.

(** The thread with index [i] executes its next statement. *)
Definition sched_step (i : nat) (ts : list GetThread) (s : RegState)
  : list GetThread * RegState :=
  match ts !! i with
  | None => (ts, s)
  | Some t =>
      let '(pc', s') := get_step (th_key t) (th_cost_fn t) (th_pc t) s in
      (<[i := mkGetThread (th_key t) (th_cost_fn t) pc']> ts, s')
  end.

(** A schedule names, step by step, the thread that runs next. *)
Fixpoint run_schedule (sched : list nat) (ts : list GetThread) (s : RegState)
  : list GetThread * RegState :=
  match sched with
  | [] => (ts, s)
  | i :: sched' =>
      let '(ts', s') := sched_step i ts s in run_schedule sched' ts' s'
  end.

(** The schedule that runs thread 0 to its return, then thread 1, and
    so on: the calls one after another (a call takes at most six
    steps). *)
Definition serial_schedule (n : nat) : list nat :=
  mjoin ((fun i => replicate 6 i) <$> seq 0 n).

(** A thread on the path [get] takes when it finds the key: before
    the test or the final lookup with the key stored, or returned with
    the stored instance. *)
Definition on_hit_path (s : RegState) (t : GetThread) : Prop :=
  match th_pc t with
  | PcFind | PcAt => is_Some (bandits_ (fst s) !! th_key t)
  | PcReturned r =>
      exists b, bandits_ (fst s) !! th_key t = Some b /\ r = OK b
  | _ => False
  end.

End Registry.

(** ** The two singletons and [DispatchInterface] *)

(** [bandits::DrunkenBandit] and [bandits::GaussianBandit]
    ([bandits/random.h], [bandits/gaussian.h], not in src/): any two
    implementations of the [Bandit] interface. *)
Context {DrunkenBandit GaussianBandit : Type}.
Context `{!Bandit DrunkenBandit, !Bandit GaussianBandit}.

(** One observation of [logging::record]. *)
Record LogRecord := mkLogRecord {
  log_bandit : AvailableBandits;
  log_key : MapKey;
  log_choice : Implementation;
  log_delta_ns : Z;
}.

(** The process-wide state [core.cpp] works on: the two
    [ActiveBandits] singletons, the [DispatchInterface] singleton's
    members, the logging collaborator's state, what [summarize] has
    printed, and the cost estimators' environment. *)
Record World := mkWorld {
  DrunkenBandits : ActiveBandits DrunkenBandit;
  GaussianBandits : ActiveBandits GaussianBandit;
  active_bandit_ : AvailableBandits;
  chosen_counts_ : list Z;
  logging_keys : gmap MapKey string;
  logging_records : list LogRecord;
  summaries : list string;
  env : Env;
}.

Definition drunken_state (w : World) : ActiveBandits DrunkenBandit * Env :=
  (DrunkenBandits w, env w).

Definition put_drunken (s : ActiveBandits DrunkenBandit * Env) (w : World)
  : World :=
  mkWorld (fst s) (GaussianBandits w) (active_bandit_ w) (chosen_counts_ w)
    (logging_keys w) (logging_records w) (summaries w) (snd s).

Definition gaussian_state (w : World) : ActiveBandits GaussianBandit * Env :=
  (GaussianBandits w, env w).

Definition put_gaussian (s : ActiveBandits GaussianBandit * Env) (w : World)
  : World :=
  mkWorld (DrunkenBandits w) (fst s) (active_bandit_ w) (chosen_counts_ w)
    (logging_keys w) (logging_records w) (summaries w) (snd s).

Definition put_active_bandit (b : AvailableBandits) (w : World) : World :=
  mkWorld (DrunkenBandits w) (GaussianBandits w) b (chosen_counts_ w)
    (logging_keys w) (logging_records w) (summaries w) (env w).

Definition put_chosen_counts (l : list Z) (w : World) : World :=
  mkWorld (DrunkenBandits w) (GaussianBandits w) (active_bandit_ w) l
    (logging_keys w) (logging_records w) (summaries w) (env w).

Definition put_logging (ks : gmap MapKey string) (rs : list LogRecord)
    (w : World) : World :=
  mkWorld (DrunkenBandits w) (GaussianBandits w) (active_bandit_ w)
    (chosen_counts_ w) ks rs (summaries w) (env w).

Definition put_summaries (out : list string) (w : World) : World :=
  mkWorld (DrunkenBandits w) (GaussianBandits w) (active_bandit_ w)
    (chosen_counts_ w) (logging_keys w) (logging_records w) out (env w).

Definition on_drunken {A} (m : M (ActiveBandits DrunkenBandit * Env) A)
  : M World A := zoom drunken_state put_drunken m.

Definition on_gaussian {A} (m : M (ActiveBandits GaussianBandit * Env) A)
  : M World A := zoom gaussian_state put_gaussian m.

(** Modelled from the spec: [chosen_counts_] is declared in
    [dispatch/core.h] (not in src/); it is an array indexed by
    implementation identifier, one [size_t] slot for every enumerator
    before [TOTAL_COUNT], all zero at start. *)
Definition chosen_counts_size : nat := static_cast_size_t TOTAL_COUNT.

(** Modelled from the spec: the members' initial values are set in
    [dispatch/core.h] (not in src/).  At process start autotuning is
    disabled ([active_bandit_] is [kNone]) and nothing has been chosen,
    registered or logged. *)
Definition World_init (e : Env) : World :=
  mkWorld ActiveBandits_new ActiveBandits_new kNone
    (replicate chosen_counts_size 0) ∅ [] [] e.

(** The class invariant of the counter array: one slot per enumerator
    before [TOTAL_COUNT], each holding a [size_t]. *)
Definition counts_wf (w : World) : Prop :=
  length (chosen_counts_ w) = chosen_counts_size
  /\ Forall (fun n => 0 <= n < size_t_modulus) (chosen_counts_ w).

(** [DispatchInterface::active_bandit()]. *)
Definition DispatchInterface_active_bandit : M World AvailableBandits :=
  gets active_bandit_.

(** [DispatchInterface::set_active_bandit(b)]. *)
Definition DispatchInterface_set_active_bandit (b : AvailableBandits)
  : M World unit :=
  modify (put_active_bandit b).

(** [chosen_counts_[static_cast<size_t>(choice)]++]. *)
Definition incr_chosen_count (choice : Implementation) : M World unit :=
  modify (fun w =>
    put_chosen_counts
      (alter size_t_incr (static_cast_size_t choice) (chosen_counts_ w)) w).

(** The [switch (bandit)] of [DispatchInterface::choose]: the choice of
    the bandit that the registry of the strategy holds for [key]. *)
Definition choose_switch (bandit : AvailableBandits)
    (key : MapKey) (cost_fn : CostFn) : M World Implementation :=
  match bandit with
  | kRandomChoice => on_drunken (get_choose key cost_fn)
  | kGaussian => on_gaussian (get_choose key cost_fn)
  | kNone => throw CouldNotSelectBandit
  end.

(** [DispatchInterface::choose(bandit, key, cost_estimates)]. *)
Definition DispatchInterface_choose (bandit : AvailableBandits)
    (key : MapKey) (cost_fn : CostFn) : M World Implementation :=
  do choice <- choose_switch bandit key cost_fn;
  do _ <- torch_internal_assert
            (negb (bool_decide (choice = TOTAL_COUNT))) ChoiceIsTotalCount;
  do _ <- incr_chosen_count choice;
  ret choice.

(** [DispatchInterface::times_chosen(choice)].  The slot read is in
    range whenever [counts_wf] holds and the assertion passed. *)
Definition DispatchInterface_times_chosen (choice : Implementation)
  : M World Z :=
  do _ <- torch_internal_assert
            (negb (bool_decide (choice = TOTAL_COUNT))) ChoiceIsTotalCount;
  gets (fun w => default 0 (chosen_counts_ w !! static_cast_size_t choice)).

(** [DispatchInterface::update(bandit, key, choice, delta_ns)]. *)
Definition DispatchInterface_update (bandit : AvailableBandits)
    (key : MapKey) (choice : Implementation) (delta_ns : Z) : M World unit :=
  match bandit with
  | kRandomChoice => on_drunken (get_update key choice delta_ns)
  | kGaussian => on_gaussian (get_update key choice delta_ns)
  | kNone => throw CouldNotSelectBandit
  end.

Definition print_summaries (out : list string) : M World unit :=
  modify (fun w => put_summaries (summaries w ++ out) w).

(** [DispatchInterface::summarize()]. *)
Definition DispatchInterface_summarize : M World unit :=
  do bandit <- DispatchInterface_active_bandit;
  match bandit with
  | kRandomChoice =>
      do out <- on_drunken ActiveBandits_summarize; print_summaries out
  | kGaussian =>
      do out <- on_gaussian ActiveBandits_summarize; print_summaries out
  | kNone => throw CouldNotSelectBandit
  end.

(** [for (size_t i = 0; i < chosen_counts_.size(); i++) chosen_counts_[i] = 0;] *)
Definition zero_chosen_counts (l : list Z) : list Z :=
  foldl (fun acc i => <[i := 0]> acc) l (seq 0 (length l)).

(** [DispatchInterface::reset()]. *)
Definition DispatchInterface_reset : M World unit :=
  do _ <- on_drunken ActiveBandits_reset;
  do _ <- on_gaussian ActiveBandits_reset;
  do _ <- modify (put_active_bandit kNone);
  modify (fun w => put_chosen_counts (zero_chosen_counts (chosen_counts_ w)) w).

(** ** The logging collaborator *)

(** Modelled from the spec: [logging::register_key] ([utils/logging.h],
    not in src/) associates a key with its human-readable form, lazily
    and once per key. *)
Definition logging_register_key (key : MapKey) (repr_fn : unit -> string)
  : M World unit :=
  modify (fun w =>
    match logging_keys w !! key with
    | Some _ => w
    | None =>
        put_logging (<[key := repr_fn tt]> (logging_keys w))
          (logging_records w) w
    end).

(** Modelled from the spec: [logging::record] ([utils/logging.h], not in
    src/) appends one observation to an append-only log. *)
Definition logging_record (bandit : AvailableBandits) (key : MapKey)
    (choice : Implementation) (delta_ns : Z) : M World unit :=
  modify (fun w =>
    put_logging (logging_keys w)
      (logging_records w ++ [mkLogRecord bandit key choice delta_ns]) w).

(** ** [SelectImplementation<T>] *)

(** What [core.cpp] asks of a [KernelEntryPoint] (the template
    argument [T], built from [T::Args]): the results of its accessors. *)
Record KernelEntryPoint := mkKernelEntryPoint {
  key : MapKey;
  fallback : bool;
  implementations : list Implementation;
  costs : CostFn;
  repr : string;
}.

(** Modelled from the spec: the members of a [SelectImplementation]
    are declared in [dispatch/core.h] (not in src/).  [start_] is
    present only once the constructor has assigned it, and the two flags
    are [false] until [core.cpp] sets them. *)
Record SelectImplementation := mkSelectImplementation {
  entry_point_ : KernelEntryPoint;
  bandit_type_ : AvailableBandits;
  choice_ : Implementation;
  record_duration_ : bool;
  record_finished_ : bool;
  start_ : option Z;
}.

(** [SelectImplementation(args)]; [now] is what
    [high_resolution_clock::now()] returns if it is called. *)
Definition SelectImplementation_ctor (args : KernelEntryPoint) (now : Z)
  : M World SelectImplementation :=
  do bandit_type <- DispatchInterface_active_bandit;
  if bool_decide (bandit_type = kNone) then
    ret (mkSelectImplementation args bandit_type kDisabled false false None)
  else if fallback args then
    ret (mkSelectImplementation args bandit_type kFallback false false None)
  else
    do _ <- torch_internal_assert
              (negb (length (implementations args) =? 0)%nat)
              NoImplementations;
    do choice <- DispatchInterface_choose bandit_type (key args) (costs args);
    ret (mkSelectImplementation args bandit_type choice true false (Some now)).

(** [SelectImplementation::choice()]. *)
Definition SelectImplementation_choice (s : SelectImplementation)
  : Implementation := choice_ s.

Definition set_record_finished (s : SelectImplementation)
  : SelectImplementation :=
  mkSelectImplementation (entry_point_ s) (bandit_type_ s) (choice_ s)
    (record_duration_ s) true (start_ s).

Definition on_world {A} (m : M World A) : M (SelectImplementation * World) A :=
  zoom snd (fun w s => (fst s, w)) m.

(** [SelectImplementation::finish()] on the session and the world;
    [end_] is what [high_resolution_clock::now()] returns if it is
    called.  [delta_ns] is converted to [size_t] when passed to
    [DispatchInterface::update]. *)
Definition SelectImplementation_finish (end_ : Z)
  : M (SelectImplementation * World) unit :=
  do this <- gets fst;
  if negb (record_duration_ this) then ret tt
  else
    let delta_ns := end_ - default 0 (start_ this) in
    do _ <- torch_internal_assert (negb (record_finished_ this))
              FinishCalledTwice;
    do _ <- modify (fun s => (set_record_finished (fst s), snd s));
    let key := key (entry_point_ this) in
    do _ <- on_world (DispatchInterface_update (bandit_type_ this) key
                        (choice_ this) (to_size_t delta_ns));
    do _ <- on_world (logging_register_key key
                        (fun _ => repr (entry_point_ this)));
    on_world (logging_record (bandit_type_ this) key (choice_ this) delta_ns).

(** Modelled from the spec: the four session states of the
    specification's state machine, read off the members. *)
Inductive SessionState := Disabled | Fallback | Measuring | Finished.

Definition session_state (s : SelectImplementation) : SessionState :=
  if record_duration_ s then
    if record_finished_ s then Finished else Measuring
  else
    match choice_ s with
    | kDisabled => Disabled
    | _ => Fallback
    end.

(** ** Sequences of calls on the core *)

(** What the core exposes: the operations of [DispatchInterface], and
    the construction and [finish] of a session.  The clock readings a
    session would take are part of its calls. *)
Inductive Call :=
| CallSetActiveBandit (b : AvailableBandits)
| CallChoose (bandit : AvailableBandits) (key : MapKey) (cost_fn : CostFn)
| CallTimesChosen (choice : Implementation)
| CallUpdate (bandit : AvailableBandits) (key : MapKey)
    (choice : Implementation) (delta_ns : Z)
| CallSummarize
| CallReset
| CallConstruct (args : KernelEntryPoint) (now : Z)
| CallFinish (this : SelectImplementation) (end_ : Z).

(** What a call hands back when it returns. *)
Inductive Reply :=
| ReplyVoid
| ReplyChoice (choice : Implementation)
| ReplyCount (n : Z)
| ReplyConstructed (this : SelectImplementation)
| ReplyFinished (this : SelectImplementation).

Definition is_CallReset (c : Call) : bool :=
  match c with CallReset => true | _ => false end.

Definition reply {A} (f : A -> Reply) (m : M World A) : M World Reply :=
  fun w => let '(r, w') := m w in
           (match r with OK a => OK (f a) | Err e => Err e end, w').

Definition do_call (c : Call) : M World Reply :=
  match c with
  | CallSetActiveBandit b =>
      reply (fun _ => ReplyVoid) (DispatchInterface_set_active_bandit b)
  | CallChoose bandit key cost_fn =>
      reply ReplyChoice (DispatchInterface_choose bandit key cost_fn)
  | CallTimesChosen choice =>
      reply ReplyCount (DispatchInterface_times_chosen choice)
  | CallUpdate bandit key choice delta_ns =>
      reply (fun _ => ReplyVoid)
        (DispatchInterface_update bandit key choice delta_ns)
  | CallSummarize => reply (fun _ => ReplyVoid) DispatchInterface_summarize
  | CallReset => reply (fun _ => ReplyVoid) DispatchInterface_reset
  | CallConstruct args now =>
      reply ReplyConstructed (SelectImplementation_ctor args now)
  | CallFinish this end_ =>
      fun w =>
        let '(r, s) := SelectImplementation_finish end_ (this, w) in
        (match r with OK _ => OK (ReplyFinished (fst s)) | Err e => Err e end,
         snd s)
  end.

(** Runs the calls in order and collects what they returned or threw;
    a caller may catch a fault and go on, so the run continues after
    one. *)
Fixpoint run_calls (cs : list Call) (w : World)
  : list (Result Reply) * World :=
  match cs with
  | [] => ([], w)
  | c :: cs' =>
      let '(r, w') := do_call c w in
      let '(rs, w'') := run_calls cs' w' in
      (r :: rs, w'')
  end.

(** A [choose] returned a choice: to its caller, or to the constructor
    of a session, which then is the one that measures. *)
Definition returned_choice (r : Result Reply) : bool :=
  match r with
  | OK (ReplyChoice _) => true
  | OK (ReplyConstructed this) => record_duration_ this
  | _ => false
  end.

(** The number of [choose] calls that returned a choice. *)
Definition choices_returned (rs : list (Result Reply)) : nat :=
  length (List.filter returned_choice rs).

(** [sum(times_chosen(i) for all real i)]. *)
Definition times_chosen_value (c : Implementation) (w : World) : Z :=
  match fst (DispatchInterface_times_chosen c w) with
  | OK n => n
  | Err _ => 0
  end.

Definition total_real_chosen (w : World) : Z :=
  foldr Z.add 0 ((fun c => times_chosen_value c w) <$> real_implementations).

(** The bandit stored for [key] in the registry of strategy [b]. *)
Definition registered (b : AvailableBandits) (key : MapKey) (w : World)
  : bool :=
  match b with
  | kRandomChoice => bool_decide (is_Some (bandits_ (DrunkenBandits w) !! key))
  | kGaussian => bool_decide (is_Some (bandits_ (GaussianBandits w) !! key))
  | kNone => false
  end.

(** The world in which the one instance stored for [key] under
    strategy [b] has received one [update(choice, delta_ns)] and nothing
    else has changed. *)
Definition with_one_update (b : AvailableBandits) (key : MapKey)
    (choice : Implementation) (delta_ns : Z) (w : World) : World :=
  match b with
  | kRandomChoice =>
      put_drunken
        (mkActiveBandits (next_seed_ (DrunkenBandits w))
           (ordered_keys_ (DrunkenBandits w))
           (alter (update choice delta_ns) key (bandits_ (DrunkenBandits w))),
         env w) w
  | kGaussian =>
      put_gaussian
        (mkActiveBandits (next_seed_ (GaussianBandits w))
           (ordered_keys_ (GaussianBandits w))
           (alter (update choice delta_ns) key (bandits_ (GaussianBandits w))),
         env w) w
  | kNone => w
  end.

(** The log after one [register_key] and one [record]. *)
Definition logged (bandit : AvailableBandits) (k : MapKey)
    (repr_k : string) (choice : Implementation) (delta_ns : Z) (w : World)
  : World :=
  snd (logging_record bandit k choice delta_ns
         (snd (logging_register_key k (fun _ => repr_k) w))).

(** The bandit contract of the specification: [choose] returns a real
    implementation, never a pseudo-choice or the count. *)
Definition chooses_real (T : Type) `{!Bandit T} : Prop :=
  forall b : T, is_real (fst (choose b)) = true.

(** What one creation of an instance for [key] leaves behind: the
    estimator has run once on the environment, the seed counter has
    advanced once, and the key has been appended once. *)
Definition created_once {T} (key : MapKey) (cost_fn : CostFn)
    (before after : ActiveBandits T * Env) : Prop :=
  snd after = snd (cost_fn (snd before))
  /\ next_seed_ (fst after) = size_t_incr (next_seed_ (fst before))
  /\ ordered_keys_ (fst after) = ordered_keys_ (fst before) ++ [key].

(** ** Invariants of the data structures *)




(** The fault of a [switch (bandit)] that reaches [bandits_.at(key)]
    with no instance for the key, or its [default:] branch. *)
Definition lookup_fault (bandit : AvailableBandits) : Fault :=
  match bandit with
  | kNone => CouldNotSelectBandit
  | _ => KeyNotInMap
  end.

End Autotune.

Arguments mkActiveBandits {MapKey _ _ T} _ _ _.
Arguments next_seed_ {MapKey _ _ T} _.
Arguments ordered_keys_ {MapKey _ _ T} _.
Arguments bandits_ {MapKey _ _ T} _.

(** ** A concrete instance

    Three candidate implementations, natural numbers as call-site keys,
    and cost estimators that count their own invocations in the
    environment. *)
Module Demo.

Definition Impl : Type := @Implementation 3%nat.

Definition impl0 : Impl := kImpl 0%fin.
Definition impl1 : Impl := kImpl 1%fin.
Definition impl2 : Impl := kImpl 2%fin.

Definition nth_impl (n : nat) : Impl :=
  match (n mod 3)%nat with
  | O => impl0
  | S O => impl1
  | _ => impl2
  end.

(** A bandit that takes the candidates in turn, starting from its
    seed, and remembers what it was told. *)
Record Cycling := mkCycling {
  cy_costs : list Z;
  cy_turn : nat;
  cy_seen : list (Impl * Z);
}.

Global Instance Cycling_bandit
  : Bandit (MapKey := nat) (cost_estimates := list Z) (n_impl := 3%nat) Cycling :=
  {| make_unique c seed := mkCycling c (Z.to_nat seed) [];
     choose b :=
       (nth_impl (cy_turn b),
        mkCycling (cy_costs b) (S (cy_turn b)) (cy_seen b));
     update c d b := mkCycling (cy_costs b) (cy_turn b) (cy_seen b ++ [(c, d)]);
     summarize k b := "cycling"%string |}.

(** A bandit that breaks the contract: its [choose] returns the count. *)
Record Broken := mkBroken { br_seed : Z }.

Global Instance Broken_bandit
  : Bandit (MapKey := nat) (cost_estimates := list Z) (n_impl := 3%nat) Broken :=
  {| make_unique c seed := mkBroken seed;
     choose b := (TOTAL_COUNT, b);
     update c d b := b;
     summarize k b := "broken"%string |}.

(** A cost estimator that returns [c] and counts the call. *)
Definition counting (c : list Z) : @CostFn (list Z) nat :=
  fun calls => (c, S calls).

Definition K : nat := 7%nat.

Definition costs_K : list Z := [10; 20; 30].

Abbreviation DemoWorld := (@World nat _ _ nat 3%nat Cycling Cycling).

(** The world at process start, no estimator called yet. *)
Definition world0 : DemoWorld := World_init 0%nat.

(** The same with a contract-breaking random-choice bandit. *)
Definition broken_world0 : @World nat _ _ nat 3%nat Broken Cycling :=
  World_init 0%nat.

Definition entry_K : @KernelEntryPoint nat (list Z) nat 3%nat :=
  mkKernelEntryPoint K false [impl0; impl1; impl2] (counting costs_K)
    "K"%string.

Definition fallback_K : @KernelEntryPoint nat (list Z) nat 3%nat :=
  mkKernelEntryPoint K true [] (counting costs_K) "K"%string.

Definition empty_K : @KernelEntryPoint nat (list Z) nat 3%nat :=
  mkKernelEntryPoint K false [] (counting costs_K) "K"%string.

(** Two threads enter [get(K, counting costs_K)] on an empty registry. *)
Definition two_threads : list (GetThread (Env := nat) (T := Cycling)) :=
  [start_get K (counting costs_K); start_get K (counting costs_K)].

Definition registry0 : RegState (MapKey := nat) (Env := nat) (T := Cycling) :=
  (ActiveBandits_new, 0%nat).

(** Both threads evaluate the [find] test before either stores. *)
Definition racing_schedule : list nat :=
  [0; 1; 0; 0; 0; 0; 0; 1; 1; 1; 1; 1]%nat.

(** The world once the Gaussian strategy has been made active. *)
Definition gaussian_world : DemoWorld :=
  put_active_bandit kGaussian world0.

(** The session the constructor builds for [entry_K] at time 100 in
    [gaussian_world]. *)
Definition session_K : @SelectImplementation nat (list Z) nat 3%nat :=
  mkSelectImplementation entry_K kGaussian impl0 true false (Some 100).

(** Calls on one registry after the first [get] for [K]. *)
Definition later_reg_calls
  : list (@RegCall nat (list Z) nat 3%nat) :=
  [RegGetChoose K (counting costs_K);
   RegGet 8%nat (counting [1; 2]);
   RegGetUpdate K impl0 500;
   RegSummarize;
   RegGetExisting 9%nat].

(** Calls on the dispatch interface between construction and [finish]. *)
Definition calls_between : list (@Call nat (list Z) nat 3%nat) :=
  [CallChoose kGaussian 8%nat (counting [1; 2]);
   CallUpdate kGaussian K impl0 500;
   CallTimesChosen impl0;
   CallSummarize;
   CallConstruct entry_K 120;
   CallFinish session_K 300;
   CallSetActiveBandit kRandomChoice].

(** Four [choose] calls that return (the last one made by a session's
    constructor), one that throws, and the other operations in between. *)
Definition mixed_calls : list (@Call nat (list Z) nat 3%nat) :=
  [CallSetActiveBandit kRandomChoice;
   CallChoose kRandomChoice K (counting costs_K);
   CallChoose kGaussian K (counting costs_K);
   CallChoose kNone K (counting costs_K);
   CallUpdate kRandomChoice K impl0 500;
   CallChoose kRandomChoice K (counting costs_K);
   CallTimesChosen impl1;
   CallSummarize;
   CallConstruct fallback_K 100;
   CallConstruct entry_K 100;
   CallFinish session_K 350].

(** Registry calls with a [reset] in the middle. *)
Definition reg_calls_with_reset
  : list (@RegCall nat (list Z) nat 3%nat) :=
  [RegGet K (counting costs_K);
   RegGetChoose 8%nat (counting [1; 2]);
   RegReset;
   RegGet 9%nat (counting [5]);
   RegGetUpdate 9%nat impl1 40].

(** The registry after [K] and 8 have been created, and three threads
    that enter [get] for these keys. *)
Definition warm_registry : RegState (MapKey := nat) (Env := nat) (T := Cycling) :=
  run_reg_calls
    [RegGet K (counting costs_K); RegGet 8%nat (counting [1; 2])] registry0.

Definition hit_threads : list (GetThread (Env := nat) (T := Cycling)) :=
  [start_get K (counting costs_K); start_get 8%nat (counting [1; 2]);
   start_get K (counting [3])].

Definition hit_schedule : list nat :=
  [2; 0; 1; 0; 2; 1; 1; 0; 2; 5]%nat.

(** Calls on the core with a [reset] among them. *)
Definition calls_with_reset : list (@Call nat (list Z) nat 3%nat) :=
  [CallSetActiveBandit kGaussian;
   CallConstruct entry_K 100;
   CallChoose kRandomChoice 8%nat (counting [1; 2]);
   CallReset;
   CallSetActiveBandit kRandomChoice;
   CallChoose kRandomChoice K (counting costs_K);
   CallFinish session_K 300].

(** A second call site with the key of [entry_K] and its own estimator. *)
Definition entry_K' : @KernelEntryPoint nat (list Z) nat 3%nat :=
  mkKernelEntryPoint K false [impl1] (counting [7]) "K again"%string.

(** Registry calls that create a third key. *)
Definition growing_reg_calls
  : list (@RegCall nat (list Z) nat 3%nat) :=
  [RegGetChoose K (counting costs_K);
   RegGet 9%nat (counting [5]);
   RegGetUpdate 8%nat impl2 70].

(** Calls between two sessions that leave the active strategy alone. *)
Definition calls_keeping_strategy : list (@Call nat (list Z) nat 3%nat) :=
  [CallChoose kGaussian 8%nat (counting [1; 2]);
   CallUpdate kGaussian K impl0 500;
   CallTimesChosen impl0;
   CallFinish session_K 300].

(** The world after one Gaussian [choose] for [K]. *)
Definition warm_world : DemoWorld :=
  snd (DispatchInterface_choose kGaussian K (counting costs_K) gaussian_world).

End Demo.

(** * Properties *)

Section Properties.

Context {MapKey : Type} `{Countable MapKey}.
Context {cost_estimates Env : Type} {n_impl : nat}.

Local Abbreviation Implementation := (@Implementation n_impl).
Local Abbreviation CostFn := (@CostFn cost_estimates Env).
Local Abbreviation Bandit := (@Bandit MapKey cost_estimates n_impl).

(** ** Registries *)

Section RegistryProperties.

Context {T : Type} `{!Bandit T}.

Local Abbreviation Registry := (@ActiveBandits MapKey _ _ T).
Local Abbreviation RegState := (@RegState MapKey _ _ Env T).
Local Abbreviation RegCall := (@RegCall MapKey cost_estimates Env n_impl).

Implicit Types (k key : MapKey) (r : Registry) (e : Env).
Implicit Types (s : RegState) (cost_fn : CostFn).

(** The registry after a first [get(k, cost_fn)]. *)
Lemma get_absent k cost_fn r e :
  bandits_ r !! k = None ->
  ActiveBandits_get k cost_fn (r, e) =
    (OK (make_unique (fst (cost_fn e)) (next_seed_ r)),
     (mkActiveBandits (size_t_incr (next_seed_ r)) (ordered_keys_ r ++ [k])
        (<[k := make_unique (fst (cost_fn e)) (next_seed_ r)]> (bandits_ r)),
      snd (cost_fn e))).
Proof.
  intros Hk.
  unfold ActiveBandits_get, bind, gets; cbn.
  rewrite bool_decide_eq_false_2 by (rewrite Hk; apply is_Some_None).
  cbn. destruct (cost_fn e) as [c e'] eqn:Hc; cbn.
  unfold bandits_at; cbn. by rewrite lookup_insert_eq.
Qed.

Lemma get_present k cost_fn r e b :
  bandits_ r !! k = Some b ->
  ActiveBandits_get k cost_fn (r, e) = (OK b, (r, e)).
Proof.
  intros Hk.
  unfold ActiveBandits_get, bind, gets; cbn.
  rewrite bool_decide_eq_true_2 by (rewrite Hk; eauto).
  cbn. unfold bandits_at; cbn. by rewrite Hk.
Qed.


Lemma get_keeps k k' cost_fn s :
  is_Some (bandits_ (fst s) !! k) ->
  is_Some (bandits_ (fst (snd (ActiveBandits_get k' cost_fn s))) !! k).
Proof.
  destruct s as [r e]. intros Hk. cbn [fst] in Hk.
  destruct (bandits_ r !! k') as [b|] eqn:Hk'.
  - by rewrite (get_present _ _ _ _ _ Hk').
  - rewrite (get_absent _ _ _ _ Hk'); cbn [fst snd bandits_].
    rewrite lookup_insert. case_decide; eauto.
Qed.

Lemma get_stores k cost_fn s :
  is_Some (bandits_ (fst (snd (ActiveBandits_get k cost_fn s))) !! k).
Proof.
  destruct s as [r e]. destruct (bandits_ r !! k) as [b|] eqn:Hk.
  - rewrite (get_present _ _ _ _ _ Hk); cbn [fst snd]. rewrite Hk. eauto.
  - rewrite (get_absent _ _ _ _ Hk); cbn [fst snd bandits_].
    rewrite lookup_insert_eq. eauto.
Qed.

Lemma get_choose_keeps k k' cost_fn s :
  is_Some (bandits_ (fst s) !! k) ->
  is_Some (bandits_ (fst (snd (get_choose k' cost_fn s))) !! k).
Proof.
  intros Hk. pose proof (get_keeps k k' cost_fn s Hk) as Hg.
  unfold get_choose, bind.
  destruct (ActiveBandits_get k' cost_fn s) as [[b|err] [r1 e1]]; cbn in *;
    [|done].
  destruct (choose b) as [c b']; cbn.
  rewrite lookup_insert. case_decide; eauto.
Qed.

Lemma get_choose_stores k cost_fn s :
  is_Some (bandits_ (fst (snd (get_choose k cost_fn s))) !! k).
Proof.
  pose proof (get_stores k cost_fn s) as Hg.
  unfold get_choose, bind.
  destruct (ActiveBandits_get k cost_fn s) as [[b|err] [r1 e1]]; cbn in *;
    [|done].
  destruct (choose b) as [c b']; cbn.
  rewrite lookup_insert_eq. eauto.
Qed.

Lemma get_update_keeps k k' choice delta_ns s :
  is_Some (bandits_ (fst s) !! k) ->
  is_Some (bandits_ (fst (snd (get_update k' choice delta_ns s))) !! k).
Proof.
  destruct s as [r e]; cbn. intros Hk.
  unfold get_update, bind, ActiveBandits_get_existing, bandits_at; cbn.
  destruct (bandits_ r !! k') as [b|]; cbn; [|done].
  rewrite lookup_insert. case_decide; eauto.
Qed.

(** What [get(key)->update(choice, delta_ns)] does to a stored instance. *)
Lemma get_update_present k choice delta_ns r e b :
  bandits_ r !! k = Some b ->
  get_update k choice delta_ns (r, e) =
    (OK tt,
     (mkActiveBandits (next_seed_ r) (ordered_keys_ r)
        (alter (update choice delta_ns) k (bandits_ r)), e)).
Proof.
  intros Hk.
  unfold get_update, bind, ActiveBandits_get_existing, bandits_at; cbn.
  rewrite Hk; cbn. unfold write_back, modify; cbn.
  do 3 f_equal. apply map_eq; intros j.
  rewrite lookup_insert, lookup_alter.
  case_decide; subst; [by rewrite Hk | done].
Qed.

Lemma get_update_absent k choice delta_ns s :
  bandits_ (fst s) !! k = None ->
  get_update k choice delta_ns s = (Err KeyNotInMap, s).
Proof.
  intros Hk.
  unfold get_update, bind, ActiveBandits_get_existing, bandits_at.
  by rewrite Hk.
Qed.

(** [get(k, cost_fn)->choose()] on a registry that holds no instance
    for [k]. *)
Lemma get_choose_absent k cost_fn r e :
  bandits_ r !! k = None ->
  get_choose k cost_fn (r, e) =
    (OK (fst (choose (make_unique (fst (cost_fn e)) (next_seed_ r)))),
     (mkActiveBandits (size_t_incr (next_seed_ r)) (ordered_keys_ r ++ [k])
        (<[k := snd (choose (make_unique (fst (cost_fn e)) (next_seed_ r)))]>
           (bandits_ r)),
      snd (cost_fn e))).
Proof.
  intros Hk. unfold get_choose, bind.
  rewrite (get_absent _ _ _ _ Hk).
  destruct (choose _) as [c b']. unfold write_back, modify, ret. cbn.
  by rewrite insert_insert_eq.
Qed.

Lemma get_choose_present k cost_fn r e b :
  bandits_ r !! k = Some b ->
  get_choose k cost_fn (r, e) =
    (OK (fst (choose b)),
     (mkActiveBandits (next_seed_ r) (ordered_keys_ r)
        (<[k := snd (choose b)]> (bandits_ r)), e)).
Proof.
  intros Hk. unfold get_choose, bind.
  rewrite (get_present _ _ _ _ _ Hk).
  by destruct (choose b) as [c b'].
Qed.

(** No call but [reset] removes an instance from the registry. *)
Lemma do_reg_call_keeps (c : RegCall) k s :
  is_RegReset c = false ->
  is_Some (bandits_ (fst s) !! k) ->
  is_Some (bandits_ (fst (snd (do_reg_call c s))) !! k).
Proof.
  intros Hc Hk. destruct c as [k' f|k'|k' f|k' ch d| |]; cbn in *; try done.
  - pose proof (get_keeps k k' f s Hk) as Hg. unfold forget.
    by destruct (ActiveBandits_get k' f s).
  - unfold forget, ActiveBandits_get_existing, bandits_at.
    by destruct (bandits_ (fst s) !! k').
  - pose proof (get_choose_keeps k k' f s Hk) as Hg. unfold forget.
    by destruct (get_choose k' f s).
  - by apply get_update_keeps.
Qed.

Lemma run_reg_calls_keeps (cs : list RegCall) k s :
  forallb (fun c => negb (is_RegReset c)) cs = true ->
  is_Some (bandits_ (fst s) !! k) ->
  is_Some (bandits_ (fst (run_reg_calls cs s)) !! k).
Proof.
  revert s. induction cs as [|c cs IH]; intros s Hcs Hk; cbn in *; [done|].
  apply andb_true_iff in Hcs as [Hc Hcs].
  apply IH; [done|]. apply do_reg_call_keeps; [|done].
  by destruct (is_RegReset c).
Qed.

(** C1: on a registry that holds no instance for a key, get-or-create
    invokes the cost estimator exactly once (the environment advances by
    one application of it), stores the one instance built from the
    estimates and the next seed, and appends the key to the ordered
    list; after any later calls other than [reset], get-or-create for
    that key returns the stored instance and leaves the registry and the
    estimators' environment as they were, whatever estimator is passed. *)
Theorem get_creates_once_then_reuses k cost_fn r e :
  bandits_ r !! k = None ->
  ActiveBandits_get k cost_fn (r, e) =
    (OK (make_unique (fst (cost_fn e)) (next_seed_ r)),
     (mkActiveBandits (size_t_incr (next_seed_ r)) (ordered_keys_ r ++ [k])
        (<[k := make_unique (fst (cost_fn e)) (next_seed_ r)]> (bandits_ r)),
      snd (cost_fn e)))
  /\ forall (later : list RegCall) (cost_fn' : CostFn),
       forallb (fun c => negb (is_RegReset c)) later = true ->
       exists b,
         bandits_
           (fst (run_reg_calls later (snd (ActiveBandits_get k cost_fn (r, e)))))
           !! k = Some b
         /\ ActiveBandits_get k cost_fn'
              (run_reg_calls later (snd (ActiveBandits_get k cost_fn (r, e))))
            = (OK b,
               run_reg_calls later (snd (ActiveBandits_get k cost_fn (r, e)))).
Proof.
  intros Hk. split; [by apply get_absent|].
  intros later cost_fn' Hlater.
  pose proof (run_reg_calls_keeps later k _ Hlater (get_stores k cost_fn (r, e)))
    as [b Hb].
  exists b. split; [done|].
  destruct (run_reg_calls later _) as [r2 e2]. by apply get_present.
Qed.

(** *** Threads inside [get(key, cost_fn)] *)

Local Abbreviation GetThread := (@GetThread MapKey cost_estimates Env T).

Lemma run_schedule_app (s1 s2 : list nat) (ts : list GetThread) s :
  run_schedule (s1 ++ s2) ts s
  = run_schedule s2 (fst (run_schedule s1 ts s)) (snd (run_schedule s1 ts s)).
Proof.
  revert ts s. induction s1 as [|i s1 IH]; intros ts s; cbn; [done|].
  destruct (sched_step i ts s) as [ts' s']. apply IH.
Qed.

(** A thread scheduled [n] times in a row takes [n] steps of its own. *)
Lemma run_schedule_replicate (n i : nat) (ts : list GetThread) s k cost_fn pc :
  ts !! i = Some (mkGetThread k cost_fn pc) ->
  run_schedule (replicate n i) ts s
  = (<[i := mkGetThread k cost_fn
             (fst (Nat.iter n (fun x => get_step k cost_fn (fst x) (snd x))
                     (pc, s)))]> ts,
     snd (Nat.iter n (fun x => get_step k cost_fn (fst x) (snd x)) (pc, s))).
Proof.
  revert ts s pc. induction n as [|n IH]; intros ts s pc Hi.
  - cbn. by rewrite list_insert_id.
  - cbn [replicate run_schedule]. unfold sched_step. rewrite Hi.
    cbn [th_key th_cost_fn th_pc].
    destruct (get_step k cost_fn pc s) as [pc' s'] eqn:Hstep.
    rewrite (IH _ s' pc')
      by (apply list_lookup_insert_eq; by eapply lookup_lt_Some).
    rewrite list_insert_insert_eq, Nat.iter_succ_r. cbn [fst snd].
    by rewrite Hstep.
Qed.

(** Six steps from its first statement take one thread through the
    whole of [get(k, cost_fn)], with the result and the effect of the
    function. *)
Lemma six_steps k cost_fn s :
  Nat.iter 6 (fun x => get_step k cost_fn (fst x) (snd x)) (PcFind, s)
  = (PcReturned (fst (ActiveBandits_get k cost_fn s)),
     snd (ActiveBandits_get k cost_fn s)).
Proof.
  destruct s as [r e]. rewrite !Nat.iter_succ_r. cbn [Nat.iter].
  destruct (bandits_ r !! k) as [b|] eqn:Hk.
  - rewrite (get_present _ _ _ _ _ Hk).
    cbn [get_step fst snd].
    rewrite bool_decide_eq_true_2 by (rewrite Hk; eauto).
    cbn [get_step fst snd]. unfold bandits_at. cbn [fst]. by rewrite Hk.
  - rewrite (get_absent _ _ _ _ Hk).
    cbn [get_step fst snd].
    rewrite bool_decide_eq_false_2 by (rewrite Hk; apply is_Some_None).
    cbn [get_step fst snd push_ordered_key modify].
    unfold call_cost_fn. destruct (cost_fn e) as [c e'].
    cbn [get_step fst snd store_new_bandit incr_next_seed modify
           next_seed_ ordered_keys_ bandits_].
    unfold bandits_at. cbn [fst snd bandits_]. by rewrite lookup_insert_eq.
Qed.

Lemma get_again k cost_fn s :
  is_Some (bandits_ (fst s) !! k) ->
  snd (ActiveBandits_get k cost_fn s) = s.
Proof.
  destruct s as [r e]. intros [b Hb]. by rewrite (get_present _ _ _ _ _ Hb).
Qed.

Lemma repeated_get_again (n : nat) k cost_fn s :
  is_Some (bandits_ (fst s) !! k) ->
  run_reg_calls (replicate n (RegGet k cost_fn)) s = s.
Proof.
  intros Hk. induction n as [|n IH]; [done|].
  cbn [replicate run_reg_calls do_reg_call]. unfold forget.
  pose proof (get_again k cost_fn s Hk) as Hs.
  destruct (ActiveBandits_get k cost_fn s) as [res s']. cbn in *. by subst.
Qed.

(** The serial schedule is the calls made one after another. *)
Lemma run_serial (m i : nat) (returned : list GetThread) k cost_fn s :
  length returned = i ->
  forallb has_returned returned = true ->
  forallb has_returned
    (fst (run_schedule (mjoin ((fun j => replicate 6 j) <$> seq i m))
            (returned ++ replicate m (start_get k cost_fn)) s)) = true
  /\ snd (run_schedule (mjoin ((fun j => replicate 6 j) <$> seq i m))
            (returned ++ replicate m (start_get k cost_fn)) s)
     = run_reg_calls (replicate m (RegGet k cost_fn)) s.
Proof.
  revert i returned s. induction m as [|m IH]; intros i returned s Hlen Hret.
  - cbn. by rewrite app_nil_r.
  - cbn [seq fmap list_fmap mjoin list_join replicate].
    rewrite run_schedule_app.
    rewrite (run_schedule_replicate 6 i _ s k cost_fn PcFind)
      by (rewrite <- Hlen; apply list_lookup_middle; done).
    rewrite six_steps. cbn [fst snd].
    rewrite <- Hlen, insert_app_r_alt, Nat.sub_diag by done.
    cbn [insert list_insert]. rewrite cons_middle, app_assoc.
    cbn [run_reg_calls do_reg_call]. unfold forget at 1.
    destruct (ActiveBandits_get k cost_fn s) as [res s'] eqn:Hget.
    cbn [fst snd].
    apply (IH (S (length returned))).
    + rewrite length_app. cbn. lia.
    + rewrite forallb_app, Hret. done.
Qed.

(** C2, amended: [n >= 1] threads that call [get(k, cost_fn)] on a
    registry holding no instance for [k], scheduled serially (each call
    returns before the next begins), all return; the estimator has then
    run exactly once, one instance has been created from its estimates
    and stored, and the key has been appended once. *)
Theorem serial_gets_create_once (n : nat) k cost_fn r e :
  bandits_ r !! k = None ->
  (0 < n)%nat ->
  forallb has_returned
    (fst (run_schedule (serial_schedule n)
            (replicate n (start_get k cost_fn)) (r, e))) = true
  /\ created_once k cost_fn (r, e)
       (snd (run_schedule (serial_schedule n)
               (replicate n (start_get k cost_fn)) (r, e)))
  /\ bandits_
       (fst (snd (run_schedule (serial_schedule n)
                    (replicate n (start_get k cost_fn)) (r, e))))
     = <[k := make_unique (fst (cost_fn e)) (next_seed_ r)]> (bandits_ r).
Proof.
  intros Hk Hn. unfold serial_schedule.
  destruct (run_serial n 0 [] k cost_fn (r, e) eq_refl eq_refl) as [Hret Hst].
  cbn [app] in Hret, Hst. split; [done|]. rewrite Hst.
  destruct n as [|n]; [lia|].
  cbn [replicate run_reg_calls do_reg_call]. unfold forget.
  pose proof (get_stores k cost_fn (r, e)) as Hstored.
  rewrite (get_absent _ _ _ _ Hk) in *. cbn [fst snd] in *.
  rewrite repeated_get_again by done.
  by repeat split.
Qed.

(** *** The invariant of a registry *)












Lemma do_reg_call_keys_prefix (c : RegCall) s :
  is_RegReset c = false ->
  ordered_keys_ (fst s) `prefix_of` ordered_keys_ (fst (snd (do_reg_call c s))).
Proof.
  intros Hc. destruct s as [r e].
  assert (Hget : forall k f,
             ordered_keys_ r
             `prefix_of` ordered_keys_ (fst (snd (ActiveBandits_get k f (r, e))))).
  { intros k f. destruct (bandits_ r !! k) as [b|] eqn:Hk.
    - by rewrite (get_present _ _ _ _ _ Hk).
    - rewrite (get_absent _ _ _ _ Hk). cbn. by apply prefix_app_r. }
  destruct c as [k f|k|k f|k ch d| |]; cbn [do_reg_call fst] in *; try done.
  - specialize (Hget k f). unfold forget.
    by destruct (ActiveBandits_get k f (r, e)).
  - unfold forget, ActiveBandits_get_existing, bandits_at. cbn [fst].
    by destruct (bandits_ r !! k).
  - specialize (Hget k f). unfold forget, get_choose, bind.
    destruct (ActiveBandits_get k f (r, e)) as [[b|err] [r1 e1]]; [|done].
    by destruct (choose b) as [c b'].
  - unfold get_update, bind, ActiveBandits_get_existing, bandits_at. cbn [fst].
    by destruct (bandits_ r !! k).
Qed.

(** X3: calls other than [reset] only append to [ordered_keys_]: the
    keys listed before are a prefix of the keys listed after, so the
    creation order that [summarize] follows is never rearranged. *)
Theorem ordered_keys_only_grow (cs : list RegCall) s :
  forallb (fun c => negb (is_RegReset c)) cs = true ->
  ordered_keys_ (fst s) `prefix_of` ordered_keys_ (fst (run_reg_calls cs s)).
Proof.
  revert s. induction cs as [|c cs IH]; intros s Hcs; cbn in *; [done|].
  apply andb_true_iff in Hcs as [Hc Hcs]. apply negb_true_iff in Hc.
  etrans; [by apply do_reg_call_keys_prefix|]. by apply IH.
Qed.

Lemma sched_step_on_hit_path (i : nat) (ts : list GetThread) s :
  Forall (on_hit_path s) ts ->
  snd (sched_step i ts s) = s
  /\ Forall (on_hit_path s) (fst (sched_step i ts s)).
Proof.
  intros Hts. unfold sched_step.
  destruct (ts !! i) as [t|] eqn:Hi; [|done].
  pose proof (proj1 (Forall_lookup _ _) Hts i t Hi) as Ht.
  destruct t as [k f pc]. unfold on_hit_path in Ht. cbn in Ht.
  assert (Hstep : snd (get_step k f pc s) = s
                  /\ on_hit_path s (mkGetThread k f (fst (get_step k f pc s)))).
  { unfold on_hit_path.
    destruct pc as [| | |c| | |res]; cbn [get_step th_pc th_key fst snd];
      try done.
    - by rewrite bool_decide_eq_true_2.
    - unfold bandits_at. destruct Ht as [b Hb]. rewrite Hb. cbn. eauto. }
  cbn [th_key th_cost_fn th_pc].
  destruct (get_step k f pc s) as [pc' s']. cbn [fst snd] in *.
  destruct Hstep as [-> Hpath]. split; [done|].
  by apply Forall_insert.
Qed.

(** X4: threads that call [get] for keys the registry already holds
    cannot disturb one another, whatever the schedule: the registry and
    the estimators' environment stay as they were (no estimator is
    invoked), and every thread that has returned was given the stored
    instance. *)
Theorem concurrent_hits_are_benign (sched : list nat) (ts : list GetThread) s :
  Forall (fun t => th_pc t = PcFind
                   /\ is_Some (bandits_ (fst s) !! th_key t)) ts ->
  snd (run_schedule sched ts s) = s
  /\ Forall (fun t => forall res, th_pc t = PcReturned res ->
                      exists b, bandits_ (fst s) !! th_key t = Some b
                                /\ res = OK b)
       (fst (run_schedule sched ts s)).
Proof.
  intros Hstart.
  assert (Hpath : Forall (on_hit_path s) ts).
  { eapply Forall_impl; [exact Hstart|]. intros t [Hpc Hk].
    unfold on_hit_path. by rewrite Hpc. }
  clear Hstart.
  assert (Hrun : snd (run_schedule sched ts s) = s
                 /\ Forall (on_hit_path s) (fst (run_schedule sched ts s))).
  { revert ts Hpath. induction sched as [|i sched IH]; intros ts Hpath;
      cbn [run_schedule]; [done|].
    destruct (sched_step_on_hit_path i ts s Hpath) as [Hs Hpath'].
    destruct (sched_step i ts s) as [ts' s']. cbn [fst snd] in *. subst s'.
    by apply IH. }
  destruct Hrun as [Hs Hend]. split; [done|].
  eapply Forall_impl; [exact Hend|]. intros t Ht res Hres.
  unfold on_hit_path in Ht. by rewrite Hres in Ht.
Qed.

Lemma get_other k k' cost_fn s :
  k' <> k ->
  bandits_ (fst (snd (ActiveBandits_get k' cost_fn s))) !! k
  = bandits_ (fst s) !! k.
Proof.
  intros Hne. destruct s as [r e].
  destruct (bandits_ r !! k') as [b|] eqn:Hk'.
  - by rewrite (get_present _ _ _ _ _ Hk').
  - rewrite (get_absent _ _ _ _ Hk'). cbn. by rewrite lookup_insert_ne.
Qed.

Lemma get_choose_other k k' cost_fn s :
  k' <> k ->
  bandits_ (fst (snd (get_choose k' cost_fn s))) !! k = bandits_ (fst s) !! k.
Proof.
  intros Hne. pose proof (get_other k k' cost_fn s Hne) as Hg.
  unfold get_choose, bind.
  destruct (ActiveBandits_get k' cost_fn s) as [[b|err] [r1 e1]];
    cbn [fst snd] in *; [|done].
  destruct (choose b) as [c b']. cbn. by rewrite lookup_insert_ne.
Qed.

Lemma get_update_other k k' choice delta_ns s :
  k' <> k ->
  bandits_ (fst (snd (get_update k' choice delta_ns s))) !! k
  = bandits_ (fst s) !! k.
Proof.
  intros Hne. destruct s as [r e].
  unfold get_update, bind, ActiveBandits_get_existing, bandits_at. cbn [fst].
  destruct (bandits_ r !! k') as [b|]; [|done]. cbn.
  by rewrite lookup_insert_ne.
Qed.


End RegistryProperties.

(** ** The dispatch interface *)

Section DispatchProperties.

Context {DrunkenBandit GaussianBandit : Type}.
Context `{!Bandit DrunkenBandit, !Bandit GaussianBandit}.

Local Abbreviation World :=
  (@World MapKey _ _ Env n_impl DrunkenBandit GaussianBandit).
Local Abbreviation KernelEntryPoint :=
  (@KernelEntryPoint MapKey cost_estimates Env n_impl).
Local Abbreviation SelectImplementation :=
  (@SelectImplementation MapKey cost_estimates Env n_impl).
Local Abbreviation Call := (@Call MapKey cost_estimates Env n_impl).

Implicit Types (w : World) (k key : MapKey) (cost_fn : CostFn).
Implicit Types (bandit : AvailableBandits) (choice : Implementation).
Implicit Types (args : KernelEntryPoint) (this : SelectImplementation).

Ltac unfold_monad :=
  unfold bind, ret, throw, gets, modify, zoom, torch_internal_assert, forget
    in *.

(** [DispatchInterface::choose] in terms of its [switch]. *)
Lemma choose_unfold bandit key cost_fn w :
  DispatchInterface_choose bandit key cost_fn w =
    match choose_switch bandit key cost_fn w with
    | (OK c, w1) =>
        if bool_decide (c = TOTAL_COUNT) then (Err ChoiceIsTotalCount, w1)
        else (OK c,
              put_chosen_counts
                (alter size_t_incr (static_cast_size_t c) (chosen_counts_ w1))
                w1)
    | (Err e, w1) => (Err e, w1)
    end.
Proof.
  unfold DispatchInterface_choose, incr_chosen_count. unfold_monad.
  destruct (choose_switch bandit key cost_fn w) as [[c|err] w1]; [|done].
  by destruct (bool_decide (c = TOTAL_COUNT)).
Qed.

(** The [switch] touches the registries and the estimators'
    environment only. *)
Lemma choose_switch_frame bandit key cost_fn w :
  active_bandit_ (snd (choose_switch bandit key cost_fn w)) = active_bandit_ w
  /\ chosen_counts_ (snd (choose_switch bandit key cost_fn w)) = chosen_counts_ w
  /\ logging_keys (snd (choose_switch bandit key cost_fn w)) = logging_keys w
  /\ logging_records (snd (choose_switch bandit key cost_fn w))
     = logging_records w.
Proof.
  destruct bandit; cbn; unfold on_drunken, on_gaussian, zoom; try done.
  - by destruct (get_choose key cost_fn (drunken_state w)).
  - by destruct (get_choose key cost_fn (gaussian_state w)).
Qed.

Lemma choose_active bandit key cost_fn w :
  active_bandit_ (snd (DispatchInterface_choose bandit key cost_fn w))
  = active_bandit_ w.
Proof.
  rewrite choose_unfold.
  pose proof (choose_switch_frame bandit key cost_fn w) as (Ha & _).
  destruct (choose_switch bandit key cost_fn w) as [[c|err] w1]; [|done].
  by destruct (bool_decide (c = TOTAL_COUNT)).
Qed.

Lemma update_frame bandit key choice delta_ns w :
  active_bandit_ (snd (DispatchInterface_update bandit key choice delta_ns w))
  = active_bandit_ w
  /\ chosen_counts_ (snd (DispatchInterface_update bandit key choice delta_ns w))
     = chosen_counts_ w
  /\ logging_records
       (snd (DispatchInterface_update bandit key choice delta_ns w))
     = logging_records w.
Proof.
  destruct bandit; cbn; unfold on_drunken, on_gaussian, zoom; try done.
  - by destruct (get_update key choice delta_ns (drunken_state w)).
  - by destruct (get_update key choice delta_ns (gaussian_state w)).
Qed.

Lemma times_chosen_unfold choice w :
  DispatchInterface_times_chosen choice w =
    (if bool_decide (choice = TOTAL_COUNT) then Err ChoiceIsTotalCount
     else OK (default 0 (chosen_counts_ w !! static_cast_size_t choice)), w).
Proof.
  unfold DispatchInterface_times_chosen. unfold_monad.
  by destruct (bool_decide (choice = TOTAL_COUNT)).
Qed.

Lemma summarize_frame w :
  active_bandit_ (snd (DispatchInterface_summarize w)) = active_bandit_ w
  /\ chosen_counts_ (snd (DispatchInterface_summarize w)) = chosen_counts_ w
  /\ DrunkenBandits (snd (DispatchInterface_summarize w)) = DrunkenBandits w
  /\ GaussianBandits (snd (DispatchInterface_summarize w)) = GaussianBandits w.
Proof.
  unfold DispatchInterface_summarize, DispatchInterface_active_bandit,
    print_summaries, on_drunken, on_gaussian, ActiveBandits_summarize.
  unfold_monad. destruct (active_bandit_ w) eqn:Ha; cbn; try done.
  - by destruct (summarize_keys _ _).
  - by destruct (summarize_keys _ _).
Qed.

Lemma zero_chosen_counts_replicate (l : list Z) :
  zero_chosen_counts l = replicate (length l) 0.
Proof.
  unfold zero_chosen_counts.
  assert (Hgen : forall n (pre post : list Z),
             length pre = n ->
             foldl (fun acc i => <[i := 0]> acc) (replicate n 0 ++ post)
               (seq n (length post))
             = replicate (n + length post) 0).
  { intros n pre post; revert n pre.
    induction post as [|x post IH]; intros n pre Hn; cbn.
    - by rewrite Nat.add_0_r, app_nil_r.
    - rewrite insert_app_r_alt by (rewrite length_replicate; lia).
      rewrite length_replicate, Nat.sub_diag; cbn.
      replace (replicate n 0 ++ 0 :: post)
        with (replicate (S n) 0 ++ post).
      + rewrite (IH (S n) (0 :: pre)) by (cbn; lia). f_equal; lia.
      + rewrite replicate_S_end, <- app_assoc. done. }
  apply (Hgen 0%nat [] l eq_refl).
Qed.

Lemma reset_unfold w :
  DispatchInterface_reset w =
    (OK tt,
     mkWorld ActiveBandits_new ActiveBandits_new kNone
       (replicate (length (chosen_counts_ w)) 0)
       (logging_keys w) (logging_records w) (summaries w) (env w)).
Proof.
  unfold DispatchInterface_reset, on_drunken, on_gaussian, ActiveBandits_reset.
  unfold_monad. cbn -[zero_chosen_counts].
  by rewrite zero_chosen_counts_replicate.
Qed.

(** The constructor of a session, branch by branch. *)
Lemma ctor_unfold args now w :
  SelectImplementation_ctor args now w =
    if bool_decide (active_bandit_ w = kNone) then
      (OK (mkSelectImplementation args (active_bandit_ w) kDisabled
             false false None), w)
    else if fallback args then
      (OK (mkSelectImplementation args (active_bandit_ w) kFallback
             false false None), w)
    else if (length (implementations args) =? 0)%nat then
      (Err NoImplementations, w)
    else
      match DispatchInterface_choose (active_bandit_ w) (key args)
              (costs args) w with
      | (OK c, w1) =>
          (OK (mkSelectImplementation args (active_bandit_ w) c
                 true false (Some now)), w1)
      | (Err err, w1) => (Err err, w1)
      end.
Proof.
  unfold SelectImplementation_ctor, DispatchInterface_active_bandit.
  unfold bind at 1. unfold gets at 1.
  destruct (bool_decide (active_bandit_ w = kNone)); [done|].
  destruct (fallback args); [done|].
  destruct (length (implementations args) =? 0)%nat; [done|].
  cbn [negb torch_internal_assert]. unfold bind at 1. unfold ret at 1.
  unfold bind.
  by destruct (DispatchInterface_choose _ _ _ w) as [[c|err] w1].
Qed.

(** [finish], branch by branch. *)
Lemma finish_unfold end_ this w :
  SelectImplementation_finish end_ (this, w) =
    if negb (record_duration_ this) then (OK tt, (this, w))
    else if record_finished_ this then (Err FinishCalledTwice, (this, w))
    else
      match DispatchInterface_update (bandit_type_ this)
              (key (entry_point_ this)) (choice_ this)
              (to_size_t (end_ - default 0 (start_ this))) w with
      | (OK _, w1) =>
          (OK tt,
           (set_record_finished this,
            logged (bandit_type_ this) (key (entry_point_ this))
              (repr (entry_point_ this)) (choice_ this)
              (end_ - default 0 (start_ this)) w1))
      | (Err err, w1) => (Err err, (set_record_finished this, w1))
      end.
Proof.
  unfold SelectImplementation_finish, on_world, logged.
  unfold bind at 1. unfold gets at 1. cbn [fst snd].
  destruct (record_duration_ this); [|done]. cbn [negb].
  destruct (record_finished_ this); [done|].
  cbn [negb torch_internal_assert]. unfold bind at 1. unfold ret at 1.
  unfold bind at 1. unfold modify at 1. cbn [fst snd].
  unfold bind at 1. unfold zoom at 1. cbn [fst snd].
  destruct (DispatchInterface_update _ _ _ _ w) as [[[]|err] w1]; [|done].
  unfold bind, zoom, logging_register_key, logging_record, modify.
  cbn [fst snd]. done.
Qed.

(** C9: [choose], [update] and [times_chosen] leave the active strategy
    as it was, whether they return or throw, and so do [summarize],
    session construction and [finish]; [set_active_bandit] and [reset]
    are the operations that assign it. *)
Theorem only_set_and_reset_change_active_bandit
    bandit k cost_fn choice delta_ns args now end_ this w :
  active_bandit_ (snd (DispatchInterface_choose bandit k cost_fn w))
    = active_bandit_ w
  /\ active_bandit_
       (snd (DispatchInterface_update bandit k choice delta_ns w))
     = active_bandit_ w
  /\ active_bandit_ (snd (DispatchInterface_times_chosen choice w))
     = active_bandit_ w
  /\ active_bandit_ (snd (DispatchInterface_summarize w)) = active_bandit_ w
  /\ active_bandit_ (snd (SelectImplementation_ctor args now w))
     = active_bandit_ w
  /\ active_bandit_ (snd (snd (SelectImplementation_finish end_ (this, w))))
     = active_bandit_ w
  /\ active_bandit_ (snd (DispatchInterface_set_active_bandit bandit w))
     = bandit
  /\ active_bandit_ (snd (DispatchInterface_reset w)) = kNone.
Proof.
  repeat split.
  - apply choose_active.
  - apply update_frame.
  - by rewrite times_chosen_unfold.
  - apply summarize_frame.
  - rewrite ctor_unfold.
    destruct (bool_decide (active_bandit_ w = kNone)); [done|].
    destruct (fallback args); [done|].
    destruct (length (implementations args) =? 0)%nat; [done|].
    pose proof (choose_active (active_bandit_ w) (key args) (costs args) w).
    by destruct (DispatchInterface_choose _ _ _ w) as [[c|err] w1].
  - rewrite finish_unfold.
    destruct (record_duration_ this); [|done]. cbn [negb].
    destruct (record_finished_ this); [done|].
    pose proof (update_frame (bandit_type_ this) (key (entry_point_ this))
                  (choice_ this)
                  (to_size_t (end_ - default 0 (start_ this))) w) as (Ha & _).
    destruct (DispatchInterface_update _ _ _ _ w) as [[[]|err] w1]; [|done].
    unfold logged, logging_register_key, logging_record, modify. cbn.
    by destruct (logging_keys w1 !! _).
Qed.

(** C10: with no active strategy, [summarize] throws and changes
    nothing; whenever it returns, the active strategy is one of the two
    selectable variants. *)
Theorem summarize_requires_active_bandit w :
  (active_bandit_ w = kNone ->
   DispatchInterface_summarize w = (Err CouldNotSelectBandit, w))
  /\ (is_OK (fst (DispatchInterface_summarize w)) = true ->
      active_bandit_ w = kRandomChoice \/ active_bandit_ w = kGaussian).
Proof.
  assert (Hnone : active_bandit_ w = kNone ->
            DispatchInterface_summarize w = (Err CouldNotSelectBandit, w)).
  { intros Ha.
    unfold DispatchInterface_summarize, DispatchInterface_active_bandit.
    unfold bind at 1. unfold gets at 1. cbv beta iota. by rewrite Ha. }
  split; [done|].
  destruct (active_bandit_ w); intros Hok; auto.
  rewrite Hnone in Hok by done. discriminate Hok.
Qed.

(** C7: a value that [choose] returns is never [TOTAL_COUNT], so
    [times_chosen] accepts it; and when the bandit selected by the
    [switch] produces [TOTAL_COUNT], [choose] throws at its assertion
    and counts nothing. *)
Theorem choose_never_returns_total_count bandit k cost_fn w :
  (forall c w',
     DispatchInterface_choose bandit k cost_fn w = (OK c, w') ->
     c <> TOTAL_COUNT
     /\ forall w'', is_OK (fst (DispatchInterface_times_chosen c w'')) = true)
  /\ (fst (choose_switch bandit k cost_fn w) = OK TOTAL_COUNT ->
      fst (DispatchInterface_choose bandit k cost_fn w)
        = Err ChoiceIsTotalCount
      /\ chosen_counts_ (snd (DispatchInterface_choose bandit k cost_fn w))
         = chosen_counts_ w).
Proof.
  rewrite choose_unfold.
  pose proof (choose_switch_frame bandit k cost_fn w) as (_ & Hcounts & _).
  destruct (choose_switch bandit k cost_fn w) as [[c0|err] w1]; cbn in *.
  - split.
    + intros c w' Hret. case_bool_decide as Hc; [discriminate|].
      injection Hret as <- <-. split; [done|].
      intros w''. rewrite times_chosen_unfold.
      by rewrite bool_decide_eq_false_2.
    + intros [= ->]. by rewrite bool_decide_eq_true_2.
  - split; [intros c w' [=] | intros [=]].
Qed.

(** C8: with a strategy active, a session for a call site that is not
    fallback-only and declares no implementation is not constructed:
    the constructor throws at its assertion and the world is as before
    (no [choose], no registry entry, no counter, no clock reading). *)
Theorem ctor_without_candidates_faults args now w :
  active_bandit_ w <> kNone ->
  fallback args = false ->
  implementations args = [] ->
  SelectImplementation_ctor args now w = (Err NoImplementations, w).
Proof.
  intros Hactive Hfallback Himpls. rewrite ctor_unfold.
  rewrite bool_decide_eq_false_2 by done.
  by rewrite Hfallback, Himpls.
Qed.

(** C3: with no strategy active the constructor yields a [Disabled]
    session whose choice is [kDisabled], reads no clock and leaves the
    world (registries included) as it was; for a fallback-only call
    site under an active strategy it yields a [Fallback] session in the
    same way; [finish] on either returns at once, in any world, changing
    neither the session nor the world (no [update], no log record). *)
Theorem disabled_and_fallback_sessions_do_nothing args now w :
  (active_bandit_ w = kNone ->
   exists this,
     SelectImplementation_ctor args now w = (OK this, w)
     /\ session_state this = Disabled
     /\ SelectImplementation_choice this = kDisabled
     /\ start_ this = None
     /\ forall end_ w',
          SelectImplementation_finish end_ (this, w') = (OK tt, (this, w')))
  /\ (active_bandit_ w <> kNone ->
      fallback args = true ->
      exists this,
        SelectImplementation_ctor args now w = (OK this, w)
        /\ session_state this = Fallback
        /\ SelectImplementation_choice this = kFallback
        /\ start_ this = None
        /\ forall end_ w',
             SelectImplementation_finish end_ (this, w') = (OK tt, (this, w'))).
Proof.
  split.
  - intros Hnone. eexists. rewrite ctor_unfold.
    rewrite bool_decide_eq_true_2 by done.
    repeat split; intros; by rewrite finish_unfold.
  - intros Hactive Hfallback. eexists. rewrite ctor_unfold.
    rewrite bool_decide_eq_false_2 by done. rewrite Hfallback.
    repeat split; intros; by rewrite finish_unfold.
Qed.

Lemma choose_after_reset_drunken k cost_fn w :
  bandits_ (DrunkenBandits w) !! k = None ->
  choose_switch kRandomChoice k cost_fn w =
    (OK (fst (choose (make_unique (T := DrunkenBandit) (fst (cost_fn (env w)))
                        (next_seed_ (DrunkenBandits w))))),
     put_drunken
       (mkActiveBandits (size_t_incr (next_seed_ (DrunkenBandits w)))
          (ordered_keys_ (DrunkenBandits w) ++ [k])
          (<[k := snd (choose (make_unique (T := DrunkenBandit) (fst (cost_fn (env w)))
                                 (next_seed_ (DrunkenBandits w))))]>
             (bandits_ (DrunkenBandits w))),
        snd (cost_fn (env w))) w).
Proof.
  intros Hk. cbn. unfold on_drunken, zoom, drunken_state.
  by rewrite (get_choose_absent _ _ _ _ Hk).
Qed.

Lemma choose_after_reset_gaussian k cost_fn w :
  bandits_ (GaussianBandits w) !! k = None ->
  choose_switch kGaussian k cost_fn w =
    (OK (fst (choose (make_unique (T := GaussianBandit) (fst (cost_fn (env w)))
                        (next_seed_ (GaussianBandits w))))),
     put_gaussian
       (mkActiveBandits (size_t_incr (next_seed_ (GaussianBandits w)))
          (ordered_keys_ (GaussianBandits w) ++ [k])
          (<[k := snd (choose (make_unique (T := GaussianBandit) (fst (cost_fn (env w)))
                                 (next_seed_ (GaussianBandits w))))]>
             (bandits_ (GaussianBandits w))),
        snd (cost_fn (env w))) w).
Proof.
  intros Hk. cbn. unfold on_gaussian, zoom, gaussian_state.
  by rewrite (get_choose_absent _ _ _ _ Hk).
Qed.

Lemma choose_env bandit k cost_fn w :
  env (snd (DispatchInterface_choose bandit k cost_fn w))
  = env (snd (choose_switch bandit k cost_fn w))
  /\ DrunkenBandits (snd (DispatchInterface_choose bandit k cost_fn w))
     = DrunkenBandits (snd (choose_switch bandit k cost_fn w))
  /\ GaussianBandits (snd (DispatchInterface_choose bandit k cost_fn w))
     = GaussianBandits (snd (choose_switch bandit k cost_fn w)).
Proof.
  rewrite choose_unfold.
  destruct (choose_switch bandit k cost_fn w) as [[c|err] w1]; [|done].
  by destruct (bool_decide (c = TOTAL_COUNT)).
Qed.

(** C4: [reset] returns; afterwards the active strategy is [kNone],
    [times_chosen] is 0 for every implementation identifier (and still
    throws on [TOTAL_COUNT]), both registries are as at process start
    (no instance, no ordered key, seed counter 0), and a [choose] for
    any key under either strategy invokes the cost estimator passed to
    it and stores an instance built from its estimates with seed 0. *)
Theorem reset_clears_everything w choice k cost_fn :
  fst (DispatchInterface_reset w) = OK tt
  /\ active_bandit_ (snd (DispatchInterface_reset w)) = kNone
  /\ DispatchInterface_times_chosen choice (snd (DispatchInterface_reset w))
     = (if bool_decide (choice = TOTAL_COUNT) then Err ChoiceIsTotalCount
        else OK 0, snd (DispatchInterface_reset w))
  /\ DrunkenBandits (snd (DispatchInterface_reset w)) = mkActiveBandits 0 [] ∅
  /\ GaussianBandits (snd (DispatchInterface_reset w)) = mkActiveBandits 0 [] ∅
  /\ env (snd (DispatchInterface_choose kRandomChoice k cost_fn
                 (snd (DispatchInterface_reset w))))
     = snd (cost_fn (env w))
  /\ bandits_ (DrunkenBandits
       (snd (DispatchInterface_choose kRandomChoice k cost_fn
               (snd (DispatchInterface_reset w))))) !! k
     = Some (snd (choose (make_unique (T := DrunkenBandit)
                          (fst (cost_fn (env w))) 0)))
  /\ env (snd (DispatchInterface_choose kGaussian k cost_fn
                 (snd (DispatchInterface_reset w))))
     = snd (cost_fn (env w))
  /\ bandits_ (GaussianBandits
       (snd (DispatchInterface_choose kGaussian k cost_fn
               (snd (DispatchInterface_reset w))))) !! k
     = Some (snd (choose (make_unique (T := GaussianBandit)
                          (fst (cost_fn (env w))) 0))).
Proof.
  rewrite reset_unfold. cbn [fst snd].
  split; [done|]. split; [done|]. split.
  { rewrite times_chosen_unfold. cbn [chosen_counts_].
    case_bool_decide; [done|]. do 2 f_equal.
    destruct (replicate _ _ !! _) as [n|] eqn:Hn; [|done].
    by apply lookup_replicate in Hn as [-> _]. }
  split; [done|]. split; [done|].
  set (w' := mkWorld _ _ _ _ _ _ _ _).
  pose proof (choose_env kRandomChoice k cost_fn w') as (He1 & Hd1 & _).
  pose proof (choose_env kGaussian k cost_fn w') as (He2 & _ & Hg2).
  rewrite He1, Hd1, He2, Hg2.
  rewrite choose_after_reset_drunken, choose_after_reset_gaussian by done.
  cbn. by rewrite !lookup_insert_eq.
Qed.

(** *** Registered instances survive every call but [reset] *)

Lemma choose_switch_registers bandit k cost_fn w c w1 :
  choose_switch bandit k cost_fn w = (OK c, w1) ->
  registered bandit k w1 = true.
Proof.
  destruct bandit; cbn; unfold on_drunken, on_gaussian, zoom.
  - pose proof (get_choose_stores k cost_fn (drunken_state w)) as Hs.
    destruct (get_choose k cost_fn (drunken_state w)) as [r [reg e]].
    intros [= -> <-]. by apply bool_decide_eq_true_2.
  - pose proof (get_choose_stores k cost_fn (gaussian_state w)) as Hs.
    destruct (get_choose k cost_fn (gaussian_state w)) as [r [reg e]].
    intros [= -> <-]. by apply bool_decide_eq_true_2.
  - discriminate.
Qed.

Lemma choose_switch_keeps_registered b k bandit k' cost_fn w :
  registered b k w = true ->
  registered b k (snd (choose_switch bandit k' cost_fn w)) = true.
Proof.
  intros Hreg.
  destruct bandit; cbn; unfold on_drunken, on_gaussian, zoom; [| |done].
  - pose proof (get_choose_keeps k k' cost_fn (drunken_state w)) as Hs.
    destruct (get_choose k' cost_fn (drunken_state w)) as [r [reg e]].
    destruct b; cbn in *; [|done..].
    apply bool_decide_eq_true_2, Hs. by apply bool_decide_eq_true_1 in Hreg.
  - pose proof (get_choose_keeps k k' cost_fn (gaussian_state w)) as Hs.
    destruct (get_choose k' cost_fn (gaussian_state w)) as [r [reg e]].
    destruct b; cbn in *; [done| |done].
    apply bool_decide_eq_true_2, Hs. by apply bool_decide_eq_true_1 in Hreg.
Qed.

Lemma registered_same_registries b k w w' :
  DrunkenBandits w' = DrunkenBandits w ->
  GaussianBandits w' = GaussianBandits w ->
  registered b k w' = registered b k w.
Proof. intros Hd Hg. unfold registered. by rewrite Hd, Hg. Qed.

Lemma choose_keeps_registered b k bandit k' cost_fn w :
  registered b k w = true ->
  registered b k (snd (DispatchInterface_choose bandit k' cost_fn w)) = true.
Proof.
  intros Hreg.
  pose proof (choose_env bandit k' cost_fn w) as (_ & Hd & Hg).
  rewrite (registered_same_registries _ _ _ _ Hd Hg).
  by apply choose_switch_keeps_registered.
Qed.

Lemma update_keeps_registered b k bandit k' choice delta_ns w :
  registered b k w = true ->
  registered b k (snd (DispatchInterface_update bandit k' choice delta_ns w))
  = true.
Proof.
  intros Hreg.
  destruct bandit; cbn; unfold on_drunken, on_gaussian, zoom; [| |done].
  - pose proof (get_update_keeps k k' choice delta_ns (drunken_state w)) as Hs.
    destruct (get_update k' choice delta_ns (drunken_state w)) as [r [reg e]].
    destruct b; cbn in *; [|done..].
    apply bool_decide_eq_true_2, Hs. by apply bool_decide_eq_true_1 in Hreg.
  - pose proof (get_update_keeps k k' choice delta_ns (gaussian_state w)) as Hs.
    destruct (get_update k' choice delta_ns (gaussian_state w)) as [r [reg e]].
    destruct b; cbn in *; [done| |done].
    apply bool_decide_eq_true_2, Hs. by apply bool_decide_eq_true_1 in Hreg.
Qed.

Lemma logged_registries bandit k repr_k choice delta_ns w :
  DrunkenBandits (logged bandit k repr_k choice delta_ns w) = DrunkenBandits w
  /\ GaussianBandits (logged bandit k repr_k choice delta_ns w)
     = GaussianBandits w
  /\ chosen_counts_ (logged bandit k repr_k choice delta_ns w)
     = chosen_counts_ w.
Proof.
  unfold logged, logging_register_key, logging_record, modify. cbn.
  by destruct (logging_keys w !! k).
Qed.

Lemma ctor_keeps_registered b k args now w :
  registered b k w = true ->
  registered b k (snd (SelectImplementation_ctor args now w)) = true.
Proof.
  intros Hreg. rewrite ctor_unfold.
  destruct (bool_decide (active_bandit_ w = kNone)); [done|].
  destruct (fallback args); [done|].
  destruct (length (implementations args) =? 0)%nat; [done|].
  pose proof (choose_keeps_registered b k (active_bandit_ w) (key args)
                (costs args) w Hreg) as Hk.
  by destruct (DispatchInterface_choose _ _ _ w) as [[c|err] w1].
Qed.

Lemma finish_keeps_registered b k this end_ w :
  registered b k w = true ->
  registered b k (snd (snd (SelectImplementation_finish end_ (this, w))))
  = true.
Proof.
  intros Hreg. rewrite finish_unfold.
  destruct (record_duration_ this); [|done]. cbn [negb].
  destruct (record_finished_ this); [done|].
  pose proof (update_keeps_registered b k (bandit_type_ this)
                (key (entry_point_ this)) (choice_ this)
                (to_size_t (end_ - default 0 (start_ this))) w Hreg) as Hk.
  destruct (DispatchInterface_update _ _ _ _ w) as [[[]|err] w1]; [|done].
  cbn [snd] in *.
  destruct (logged_registries (bandit_type_ this) (key (entry_point_ this))
              (repr (entry_point_ this)) (choice_ this)
              (end_ - default 0 (start_ this)) w1) as (Hd & Hg & _).
  by rewrite (registered_same_registries _ _ _ _ Hd Hg).
Qed.

Lemma do_call_keeps_registered (c : Call) b k w :
  is_CallReset c = false ->
  registered b k w = true ->
  registered b k (snd (do_call c w)) = true.
Proof.
  intros Hc Hreg.
  destruct c as [b'|b' k' f|ch|b' k' ch d| | |args now|this end_];
    cbn [do_call is_CallReset] in *; try done; unfold reply.
  - pose proof (choose_keeps_registered b k b' k' f w Hreg) as Hk.
    by destruct (DispatchInterface_choose b' k' f w).
  - rewrite times_chosen_unfold. by case_bool_decide.
  - pose proof (update_keeps_registered b k b' k' ch d w Hreg) as Hk.
    by destruct (DispatchInterface_update b' k' ch d w).
  - pose proof (summarize_frame w) as (_ & _ & Hd & Hg).
    rewrite <- (registered_same_registries _ _ _ _ Hd Hg) in Hreg.
    by destruct (DispatchInterface_summarize w).
  - pose proof (ctor_keeps_registered b k args now w Hreg) as Hk.
    by destruct (SelectImplementation_ctor args now w).
  - pose proof (finish_keeps_registered b k this end_ w Hreg) as Hk.
    by destruct (SelectImplementation_finish end_ (this, w)).
Qed.

Lemma run_calls_keeps_registered (cs : list Call) b k w :
  forallb (fun c => negb (is_CallReset c)) cs = true ->
  registered b k w = true ->
  registered b k (snd (run_calls cs w)) = true.
Proof.
  revert w. induction cs as [|c cs IH]; intros w Hcs Hreg;
    cbn [run_calls forallb] in *; [done|].
  apply andb_true_iff in Hcs as [Hc Hcs]. apply negb_true_iff in Hc.
  pose proof (do_call_keeps_registered c b k w Hc Hreg) as Hstep.
  destruct (do_call c w) as [r w1]. cbn [snd] in Hstep.
  specialize (IH w1 Hcs Hstep). by destruct (run_calls cs w1) as [rs w2].
Qed.

(** A session that reached [Measuring] was given its choice by
    [choose], which left an instance for its key in the registry of its
    strategy. *)
Lemma ctor_measuring args now w this w1 :
  SelectImplementation_ctor args now w = (OK this, w1) ->
  session_state this = Measuring ->
  entry_point_ this = args
  /\ bandit_type_ this = active_bandit_ w
  /\ record_finished_ this = false
  /\ record_duration_ this = true
  /\ start_ this = Some now
  /\ DispatchInterface_choose (active_bandit_ w) (key args) (costs args) w
     = (OK (choice_ this), w1)
  /\ registered (active_bandit_ w) (key args) w1 = true.
Proof.
  rewrite ctor_unfold.
  destruct (bool_decide (active_bandit_ w = kNone)).
  { intros [= <- <-]. discriminate. }
  destruct (fallback args).
  { intros [= <- <-]. discriminate. }
  destruct (length (implementations args) =? 0)%nat; [discriminate|].
  destruct (DispatchInterface_choose _ _ _ w) as [[c|err] w1'] eqn:Hchoose;
    [|discriminate].
  intros [= <- <-] _. cbn. repeat split.
  pose proof (choose_env (active_bandit_ w) (key args) (costs args) w)
    as (_ & Hd & Hg).
  rewrite Hchoose in Hd, Hg. cbn in Hd, Hg.
  rewrite (registered_same_registries _ _ _ _ Hd Hg).
  rewrite choose_unfold in Hchoose.
  destruct (choose_switch _ _ _ w) as [[c'|err] w1''] eqn:Hswitch;
    [|discriminate].
  by apply (choose_switch_registers _ _ _ _ _ _ Hswitch).
Qed.

(** [update] on a registered key updates the one stored instance. *)
Lemma update_registered bandit k choice delta_ns w :
  registered bandit k w = true ->
  DispatchInterface_update bandit k choice delta_ns w
  = (OK tt, with_one_update bandit k choice delta_ns w).
Proof.
  destruct bandit; cbn; unfold on_drunken, on_gaussian, zoom; [| |done].
  - intros [b Hb]%bool_decide_eq_true_1. unfold drunken_state.
    by rewrite (get_update_present _ _ _ _ _ _ Hb).
  - intros [b Hb]%bool_decide_eq_true_1. unfold gaussian_state.
    by rewrite (get_update_present _ _ _ _ _ _ Hb).
Qed.

(** C5: take a session that its constructor left in [Measuring], and
    any calls other than [reset] made on the core since (other
    sessions' included).
    The first [finish] returns, having applied exactly one [update] to
    the instance stored for the session's key and appended exactly one
    record to the log, and leaves the session [Finished]; a second
    [finish] throws at the double-finish assertion and changes neither
    the session nor the world, so the observation is counted once. *)
Theorem finish_once_then_double_finish_faults
    args now w0 this w1 (calls : list Call) end1 end2 :
  SelectImplementation_ctor args now w0 = (OK this, w1) ->
  session_state this = Measuring ->
  forallb (fun c => negb (is_CallReset c)) calls = true ->
  SelectImplementation_finish end1 (this, snd (run_calls calls w1))
  = (OK tt,
     (set_record_finished this,
      logged (active_bandit_ w0) (key args) (repr args) (choice_ this)
        (end1 - now)
        (with_one_update (active_bandit_ w0) (key args) (choice_ this)
           (to_size_t (end1 - now)) (snd (run_calls calls w1)))))
  /\ session_state (set_record_finished this) = Finished
  /\ logging_records
       (logged (active_bandit_ w0) (key args) (repr args) (choice_ this)
          (end1 - now)
          (with_one_update (active_bandit_ w0) (key args) (choice_ this)
             (to_size_t (end1 - now)) (snd (run_calls calls w1))))
     = logging_records (snd (run_calls calls w1))
       ++ [mkLogRecord (active_bandit_ w0) (key args) (choice_ this)
             (end1 - now)]
  /\ forall w3,
       SelectImplementation_finish end2 (set_record_finished this, w3)
       = (Err FinishCalledTwice, (set_record_finished this, w3)).
Proof.
  intros Hctor Hstate Hcalls.
  destruct (ctor_measuring _ _ _ _ _ Hctor Hstate)
    as (Hentry & Htype & Hfin & Hdur & Hstart & _ & Hreg).
  pose proof (run_calls_keeps_registered calls _ _ _ Hcalls Hreg) as Hreg2.
  split; [|split; [|split]].
  - rewrite finish_unfold, Hdur, Hfin, Hstart, Hentry, Htype. cbn [negb default].
    by rewrite update_registered.
  - unfold session_state. cbn. by rewrite Hdur.
  - unfold logged, logging_register_key, logging_record, modify. cbn.
    destruct (logging_keys _ !! _); cbn; by destruct (active_bandit_ w0).
  - intros w3. rewrite finish_unfold. cbn. by rewrite Hdur.
Qed.

(** *** The counter array *)

Lemma static_cast_size_t_inj (c1 c2 : Implementation) :
  static_cast_size_t c1 = static_cast_size_t c2 -> c1 = c2.
Proof.
  destruct c1 as [i| | |], c2 as [j| | |]; cbn; intros Heq;
    try done; try lia;
    try (pose proof (fin_to_nat_lt i); lia);
    try (pose proof (fin_to_nat_lt j); lia).
  f_equal. by apply (inj fin_to_nat).
Qed.

Lemma static_cast_size_t_lt (c : Implementation) :
  c <> TOTAL_COUNT ->
  (static_cast_size_t c < chosen_counts_size (n_impl := n_impl))%nat.
Proof.
  unfold chosen_counts_size. destruct c as [i| | |]; cbn; intros Hc;
    try lia; try done.
  pose proof (fin_to_nat_lt i). lia.
Qed.

Lemma real_implementations_NoDup :
  NoDup (real_implementations (n_impl := n_impl)).
Proof. apply (NoDup_fmap_2 kImpl), NoDup_enum. Qed.

Lemma elem_of_real_implementations (c : Implementation) :
  c ∈ real_implementations (n_impl := n_impl) <-> is_real c = true.
Proof.
  unfold real_implementations. rewrite list_elem_of_fmap. split.
  - by intros (i & -> & _).
  - destruct c as [i| | |]; try done. intros _. exists i.
    split; [done|]. apply elem_of_enum.
Qed.

Lemma times_chosen_value_slot (c : Implementation) w :
  c <> TOTAL_COUNT ->
  times_chosen_value c w
  = default 0 (chosen_counts_ w !! static_cast_size_t c).
Proof.
  intros Hc. unfold times_chosen_value. rewrite times_chosen_unfold.
  by rewrite bool_decide_eq_false_2.
Qed.

Lemma total_real_chosen_slots w :
  total_real_chosen w
  = foldr Z.add 0
      ((fun c : Implementation => default 0 (chosen_counts_ w !! static_cast_size_t c))
         <$> real_implementations).
Proof.
  unfold total_real_chosen. f_equal. apply list_fmap_ext.
  intros i c Hc. apply times_chosen_value_slot.
  apply list_elem_of_lookup_2, elem_of_real_implementations in Hc.
  by destruct c.
Qed.

Lemma total_real_chosen_same_counts w w' :
  chosen_counts_ w' = chosen_counts_ w ->
  total_real_chosen w' = total_real_chosen w.
Proof. intros Hc. by rewrite !total_real_chosen_slots, Hc. Qed.

Lemma slot_nonneg (l : list Z) (i : nat) :
  Forall (fun n => 0 <= n < size_t_modulus) l -> 0 <= default 0 (l !! i).
Proof.
  intros Hl. destruct (l !! i) as [x|] eqn:Hx; cbn; [|done].
  by apply (proj1 (Forall_lookup _ _) Hl i x).
Qed.

(** A slot counted in a sum of non-negative slots is at most the sum. *)
Lemma slot_le_sum (l : list Z) (cs : list Implementation) c :
  Forall (fun n => 0 <= n < size_t_modulus) l ->
  c ∈ cs ->
  default 0 (l !! static_cast_size_t c)
  <= foldr Z.add 0
       ((fun c : Implementation => default 0 (l !! static_cast_size_t c)) <$> cs).
Proof.
  intros Hl. induction cs as [|c' cs IH]; intros Hin.
  - by apply not_elem_of_nil in Hin.
  - cbn.
    assert (0 <= foldr Z.add 0
              ((fun c : Implementation => default 0 (l !! static_cast_size_t c)) <$> cs)).
    { clear IH Hin. induction cs as [|c'' cs IH]; cbn; [done|].
      pose proof (slot_nonneg l (static_cast_size_t c'') Hl). lia. }
    pose proof (slot_nonneg l (static_cast_size_t c') Hl).
    apply elem_of_cons in Hin as [->|Hin]; [lia|].
    specialize (IH Hin). lia.
Qed.

(** Incrementing the slot of [c0] adds one to a sum over distinct
    identifiers exactly when [c0] is among them. *)
Lemma sum_after_incr (l : list Z) (cs : list Implementation) c0 :
  NoDup cs ->
  (static_cast_size_t c0 < length l)%nat ->
  0 <= default 0 (l !! static_cast_size_t c0) < size_t_modulus - 1 ->
  foldr Z.add 0
    ((fun c : Implementation => default 0
                 (alter size_t_incr (static_cast_size_t c0) l
                    !! static_cast_size_t c)) <$> cs)
  = foldr Z.add 0
      ((fun c : Implementation => default 0 (l !! static_cast_size_t c)) <$> cs)
    + (if bool_decide (c0 ∈ cs) then 1 else 0).
Proof.
  intros Hnd Hlt Hslot. induction cs as [|c cs IH]; [done|].
  apply NoDup_cons in Hnd as [Hc Hnd]. specialize (IH Hnd). cbn.
  rewrite IH. destruct (decide (c = c0)) as [->|Hne].
  - rewrite list_lookup_alter_eq.
    apply lookup_lt_is_Some_2 in Hlt as [x Hx]. rewrite Hx in *. cbn in *.
    rewrite (bool_decide_eq_false_2 (c0 ∈ cs)) by done.
    rewrite bool_decide_eq_true_2 by apply list_elem_of_here.
    unfold size_t_incr, to_size_t. rewrite Z.mod_small by lia. lia.
  - rewrite list_lookup_alter_ne
      by (intros Heq; apply Hne; symmetry; by apply static_cast_size_t_inj).
    destruct (decide (c0 ∈ cs)) as [Hin|Hnin].
    + rewrite !bool_decide_eq_true_2; [lia|by apply list_elem_of_further|done].
    + rewrite !bool_decide_eq_false_2; [lia| |done].
      intros [->|Hin]%elem_of_cons; done.
Qed.

Lemma incr_keeps_counts_wf (c : Implementation) w :
  counts_wf w ->
  counts_wf
    (put_chosen_counts
       (alter size_t_incr (static_cast_size_t c) (chosen_counts_ w)) w).
Proof.
  intros [Hlen Hrange]. split; cbn.
  - by rewrite length_alter.
  - apply Forall_alter; [done|]. intros x _ _.
    unfold size_t_incr, to_size_t, size_t_modulus.
    apply Z.mod_pos_bound. lia.
Qed.

Lemma get_choose_result {T} `{!Bandit T} k cost_fn
    (s s' : ActiveBandits T * Env) c :
  get_choose k cost_fn s = (OK c, s') -> exists b : T, c = fst (choose b).
Proof.
  unfold get_choose, bind.
  destruct (ActiveBandits_get k cost_fn s) as [[b|err] s1]; [|discriminate].
  destruct (choose b) as [c' b'] eqn:Hb. cbn. intros [= <- _].
  exists b. by rewrite Hb.
Qed.

(** Under the bandit contract the [switch] yields real implementations. *)
Lemma choose_switch_real bandit k cost_fn w c w1 :
  chooses_real DrunkenBandit ->
  chooses_real GaussianBandit ->
  choose_switch bandit k cost_fn w = (OK c, w1) ->
  is_real c = true.
Proof.
  intros Hd Hg.
  destruct bandit; cbn; unfold on_drunken, on_gaussian, zoom; [| |done].
  - destruct (get_choose k cost_fn (drunken_state w)) as [r s1] eqn:Hgc.
    intros [= -> _]. apply get_choose_result in Hgc as [b ->]. apply Hd.
  - destruct (get_choose k cost_fn (gaussian_state w)) as [r s1] eqn:Hgc.
    intros [= -> _]. apply get_choose_result in Hgc as [b ->]. apply Hg.
Qed.

(** One [choose]: a returned choice adds one to the sum over the real
    identifiers, a fault adds nothing. *)
Lemma choose_counts bandit k cost_fn w :
  chooses_real DrunkenBandit ->
  chooses_real GaussianBandit ->
  counts_wf w ->
  total_real_chosen w + 1 < size_t_modulus ->
  counts_wf (snd (DispatchInterface_choose bandit k cost_fn w))
  /\ total_real_chosen (snd (DispatchInterface_choose bandit k cost_fn w))
     = total_real_chosen w
       + (if is_OK (fst (DispatchInterface_choose bandit k cost_fn w))
          then 1 else 0).
Proof.
  intros Hd Hg Hwf Hbound. rewrite choose_unfold.
  pose proof (choose_switch_frame bandit k cost_fn w) as (_ & Hcounts & _).
  destruct (choose_switch bandit k cost_fn w) as [[c|err] w1] eqn:Hswitch;
    cbn in Hcounts.
  - pose proof (choose_switch_real _ _ _ _ _ _ Hd Hg Hswitch) as Hreal.
    assert (Hwf1 : counts_wf w1) by (unfold counts_wf; by rewrite Hcounts).
    rewrite bool_decide_eq_false_2 by (by destruct c). cbn [fst snd is_OK].
    split; [by apply incr_keeps_counts_wf|].
    rewrite !total_real_chosen_slots. cbn [chosen_counts_ put_chosen_counts].
    rewrite Hcounts. destruct Hwf as [Hlen Hrange].
    rewrite sum_after_incr.
    + rewrite bool_decide_eq_true_2; [done|].
      by apply elem_of_real_implementations.
    + apply real_implementations_NoDup.
    + rewrite Hlen. apply static_cast_size_t_lt. by destruct c.
    + split; [by apply slot_nonneg|].
      pose proof (slot_le_sum (chosen_counts_ w) real_implementations c Hrange)
        as Hle.
      rewrite total_real_chosen_slots in Hbound.
      specialize (Hle (proj2 (elem_of_real_implementations c) Hreal)). lia.
  - cbn [fst snd is_OK]. split.
    + unfold counts_wf. by rewrite Hcounts.
    + by rewrite (total_real_chosen_same_counts _ _ Hcounts), Z.add_0_r.
Qed.

(** One call other than [reset]. *)
Lemma do_call_counts (c : Call) w :
  chooses_real DrunkenBandit ->
  chooses_real GaussianBandit ->
  is_CallReset c = false ->
  counts_wf w ->
  total_real_chosen w + 1 < size_t_modulus ->
  counts_wf (snd (do_call c w))
  /\ total_real_chosen (snd (do_call c w))
     = total_real_chosen w
       + (if returned_choice (fst (do_call c w)) then 1 else 0).
Proof.
  intros Hd Hg Hc Hwf Hbound.
  assert (Hsame : forall w' : World,
             chosen_counts_ w' = chosen_counts_ w ->
             counts_wf w' /\ total_real_chosen w' = total_real_chosen w + 0).
  { intros w' Hcounts. split; [unfold counts_wf; by rewrite Hcounts|].
    by rewrite (total_real_chosen_same_counts _ _ Hcounts), Z.add_0_r. }
  destruct c as [b'|b' k' f|ch|b' k' ch d| | |args now|this end_];
    cbn [do_call is_CallReset] in *; try done; unfold reply.
  - by apply Hsame.
  - pose proof (choose_counts b' k' f w Hd Hg Hwf Hbound) as [Hwf' Htotal].
    by destruct (DispatchInterface_choose b' k' f w) as [[x|err] w1].
  - rewrite times_chosen_unfold. case_bool_decide; by apply Hsame.
  - pose proof (update_frame b' k' ch d w) as (_ & Hcounts & _).
    destruct (DispatchInterface_update b' k' ch d w) as [[[]|err] w1];
      by apply Hsame.
  - pose proof (summarize_frame w) as (_ & Hcounts & _).
    destruct (DispatchInterface_summarize w) as [[[]|err] w1];
      by apply Hsame.
  - rewrite ctor_unfold.
    destruct (bool_decide (active_bandit_ w = kNone)); [by apply Hsame|].
    destruct (fallback args); [by apply Hsame|].
    destruct (length (implementations args) =? 0)%nat; [by apply Hsame|].
    pose proof (choose_counts (active_bandit_ w) (key args) (costs args) w
                  Hd Hg Hwf Hbound) as [Hwf' Htotal].
    by destruct (DispatchInterface_choose _ _ _ w) as [[x|err] w1].
  - rewrite finish_unfold.
    destruct (record_duration_ this); [|by apply Hsame]. cbn [negb].
    destruct (record_finished_ this); [by apply Hsame|].
    pose proof (update_frame (bandit_type_ this) (key (entry_point_ this))
                  (choice_ this)
                  (to_size_t (end_ - default 0 (start_ this))) w)
      as (_ & Hcounts & _).
    destruct (DispatchInterface_update _ _ _ _ w) as [[[]|err] w1];
      cbn [fst snd] in *; apply Hsame; [|done].
    destruct (logged_registries (bandit_type_ this) (key (entry_point_ this))
                (repr (entry_point_ this)) (choice_ this)
                (end_ - default 0 (start_ this)) w1) as (_ & _ & Hl).
    by rewrite Hl.
Qed.

Lemma run_calls_counts (calls : list Call) w :
  chooses_real DrunkenBandit ->
  chooses_real GaussianBandit ->
  forallb (fun c => negb (is_CallReset c)) calls = true ->
  counts_wf w ->
  total_real_chosen w + Z.of_nat (length calls) < size_t_modulus ->
  counts_wf (snd (run_calls calls w))
  /\ (choices_returned (fst (run_calls calls w)) <= length calls)%nat
  /\ total_real_chosen (snd (run_calls calls w))
     = total_real_chosen w
       + Z.of_nat (choices_returned (fst (run_calls calls w))).
Proof.
  intros Hd Hg. revert w.
  induction calls as [|c calls IH]; intros w Hcalls Hwf Hbound.
  - cbn. split; [done|]. split; [done|]. lia.
  - cbn [run_calls forallb length] in *.
    apply andb_true_iff in Hcalls as [Hc Hcalls].
    apply negb_true_iff in Hc.
    destruct (do_call_counts c w Hd Hg Hc Hwf) as [Hwf1 Htotal1]; [lia|].
    destruct (do_call c w) as [r w1]. cbn [fst snd] in *.
    assert (Hbound1 : total_real_chosen w1 + Z.of_nat (length calls)
                      < size_t_modulus).
    { rewrite Htotal1. destruct (returned_choice r); lia. }
    destruct (IH w1 Hcalls Hwf1 Hbound1) as (Hwf2 & Hn & Htotal2).
    destruct (run_calls calls w1) as [rs w2]. cbn [fst snd] in *.
    split; [done|]. rewrite Htotal2, Htotal1.
    unfold choices_returned in *. cbn [List.filter].
    destruct (returned_choice r); cbn [length]; split; lia.
Qed.

(** C6: start from a well-formed counter array and make any calls on
    the core other than [reset], with bandits that keep their contract
    of choosing real implementations and with counters that stay below
    [2^64].  Afterwards the sum of [times_chosen] over the real
    implementation identifiers has grown by the number of [choose]
    calls that returned (a session's constructor makes one when it
    measures): each of them added one to the counter of one real
    implementation.  At process start and after [reset] the sum is 0,
    so it then equals that number. *)
Theorem chosen_counts_sum_to_choose_calls (calls : list Call) w :
  chooses_real DrunkenBandit ->
  chooses_real GaussianBandit ->
  counts_wf w ->
  forallb (fun c => negb (is_CallReset c)) calls = true ->
  total_real_chosen w + Z.of_nat (length calls) < size_t_modulus ->
  total_real_chosen (snd (run_calls calls w))
  = total_real_chosen w
    + Z.of_nat (choices_returned (fst (run_calls calls w))).
Proof.
  intros Hd Hg Hwf Hcalls Hbound.
  by apply run_calls_counts.
Qed.

(** [reset] re-establishes the invariant of the counter array and
    brings the sum back to 0. *)
Lemma reset_counts_wf w :
  length (chosen_counts_ w) = chosen_counts_size (n_impl := n_impl) ->
  counts_wf (snd (DispatchInterface_reset w))
  /\ total_real_chosen (snd (DispatchInterface_reset w)) = 0.
Proof.
  intros Hlen. rewrite reset_unfold. cbn [snd]. split.
  - split; cbn [chosen_counts_].
    + by rewrite length_replicate.
    + apply Forall_replicate. unfold size_t_modulus. lia.
  - rewrite total_real_chosen_slots. cbn [chosen_counts_].
    induction real_implementations as [|c cs IH]; [done|].
    cbn [fmap list_fmap foldr]. rewrite IH.
    destruct (replicate _ _ !! _) as [x|] eqn:Hx; [|done].
    by apply lookup_replicate in Hx as [-> _].
Qed.

(** At process start the counter array is well formed and sums to 0. *)
Lemma World_init_counts_wf (e : Env) :
  counts_wf (World_init e : World).
Proof.
  split; cbn [World_init chosen_counts_].
  - apply length_replicate.
  - apply Forall_replicate. unfold size_t_modulus. lia.
Qed.

Lemma World_init_total (e : Env) :
  total_real_chosen (World_init e : World) = 0.
Proof.
  rewrite total_real_chosen_slots. cbn [chosen_counts_ World_init].
  induction real_implementations as [|c cs IH]; [done|].
  cbn [fmap list_fmap foldr]. rewrite IH.
  destruct (replicate _ _ !! _) as [x|] eqn:Hx; [|done].
  by apply lookup_replicate in Hx as [-> _].
Qed.

(** *** The invariant of the whole state *)

Lemma put_drunken_same w : put_drunken (drunken_state w) w = w.
Proof. by destruct w. Qed.

Lemma put_gaussian_same w : put_gaussian (gaussian_state w) w = w.
Proof. by destruct w. Qed.










(** *** Faults and partial effects *)





(** X8: a [choose] that returns [c] adds one to the slot of [c],
    wrapping at [2^64], and leaves what [times_chosen] answers for every
    other identifier as it was. *)
Theorem choose_counts_its_choice_only bandit k cost_fn w c w' c' :
  length (chosen_counts_ w) = chosen_counts_size (n_impl := n_impl) ->
  DispatchInterface_choose bandit k cost_fn w = (OK c, w') ->
  times_chosen_value c w' = to_size_t (times_chosen_value c w + 1)
  /\ (c' <> c -> times_chosen_value c' w' = times_chosen_value c' w).
Proof.
  intros Hlen. rewrite choose_unfold.
  pose proof (choose_switch_frame bandit k cost_fn w) as (_ & Hcounts & _).
  destruct (choose_switch bandit k cost_fn w) as [[c0|err] w1];
    [|discriminate].
  cbn [snd] in Hcounts. case_bool_decide as Hc0; [discriminate|].
  intros [= -> <-]. split.
  - rewrite !times_chosen_value_slot by done.
    cbn [chosen_counts_ put_chosen_counts]. rewrite Hcounts.
    rewrite list_lookup_alter_eq.
    destruct (lookup_lt_is_Some_2 (chosen_counts_ w) (static_cast_size_t c))
      as [x Hx].
    { rewrite Hlen. by apply static_cast_size_t_lt. }
    by rewrite Hx.
  - intros Hne. unfold times_chosen_value. rewrite !times_chosen_unfold.
    case_bool_decide; [done|]. cbn [fst chosen_counts_ put_chosen_counts].
    rewrite Hcounts, list_lookup_alter_ne; [done|].
    intros Heq. apply Hne. symmetry. by apply static_cast_size_t_inj.
Qed.

Lemma update_unregistered bandit k choice delta_ns w :
  registered bandit k w = false ->
  DispatchInterface_update bandit k choice delta_ns w
  = (Err (lookup_fault bandit), w).
Proof.
  destruct bandit; cbn; unfold on_drunken, on_gaussian, zoom; [| |done].
  - intros Hreg%bool_decide_eq_false_1.
    rewrite get_update_absent, put_drunken_same; [done|].
    cbn. by apply eq_None_not_Some.
  - intros Hreg%bool_decide_eq_false_1.
    rewrite get_update_absent, put_gaussian_same; [done|].
    cbn. by apply eq_None_not_Some.
Qed.

(** X9: [update] returns exactly when the registry of the strategy
    holds an instance for the key.  For a key that no [choose] has
    created under that strategy it throws (out of [bandits_.at], or
    "could not select bandit" for [kNone]) and leaves the state as it
    was. *)
Theorem update_needs_a_created_instance bandit k choice delta_ns w :
  (is_OK (fst (DispatchInterface_update bandit k choice delta_ns w)) = true
   <-> registered bandit k w = true)
  /\ (registered bandit k w = false ->
      DispatchInterface_update bandit k choice delta_ns w
      = (Err (lookup_fault bandit), w)).
Proof.
  split; [|apply update_unregistered].
  destruct (registered bandit k w) eqn:Hreg.
  - by rewrite update_registered.
  - by rewrite update_unregistered.
Qed.

(** X10: [reset] is idempotent, and it is not a return to process
    start: the records already logged, the keys registered with the
    logger, what [summarize] has printed and the estimators' environment
    are kept, as is the size of the counter array. *)
Theorem reset_is_idempotent_and_keeps_the_log w :
  DispatchInterface_reset (snd (DispatchInterface_reset w))
  = DispatchInterface_reset w
  /\ logging_records (snd (DispatchInterface_reset w)) = logging_records w
  /\ logging_keys (snd (DispatchInterface_reset w)) = logging_keys w
  /\ summaries (snd (DispatchInterface_reset w)) = summaries w
  /\ env (snd (DispatchInterface_reset w)) = env w
  /\ length (chosen_counts_ (snd (DispatchInterface_reset w)))
     = length (chosen_counts_ w).
Proof.
  rewrite !reset_unfold. cbn. by rewrite !length_replicate.
Qed.



Lemma choose_registered_env bandit k cost_fn w :
  registered bandit k w = true ->
  env (snd (DispatchInterface_choose bandit k cost_fn w)) = env w.
Proof.
  intros Hreg.
  pose proof (choose_env bandit k cost_fn w) as (-> & _ & _).
  destruct bandit; cbn in *; unfold on_drunken, on_gaussian, zoom; [| |done].
  - apply bool_decide_eq_true_1 in Hreg as [b Hb]. unfold drunken_state.
    by rewrite (get_choose_present _ _ _ _ _ Hb).
  - apply bool_decide_eq_true_1 in Hreg as [b Hb]. unfold gaussian_state.
    by rewrite (get_choose_present _ _ _ _ _ Hb).
Qed.

(** X12: sessions of one call-site key share one instance.  Once a
    session for the key has measured under a strategy, constructing a
    further session for that key under the same strategy (after any
    calls but [reset]) does not invoke its cost estimator: the
    estimators' environment is as before the construction. *)
Theorem later_sessions_reuse_the_instance
    args now w0 this w1 (calls : list Call) args' now' :
  SelectImplementation_ctor args now w0 = (OK this, w1) ->
  session_state this = Measuring ->
  forallb (fun c => negb (is_CallReset c)) calls = true ->
  active_bandit_ (snd (run_calls calls w1)) = active_bandit_ w0 ->
  key args' = key args ->
  env (snd (SelectImplementation_ctor args' now' (snd (run_calls calls w1))))
  = env (snd (run_calls calls w1)).
Proof.
  intros Hctor Hstate Hcalls Hactive Hkey.
  destruct (ctor_measuring _ _ _ _ _ Hctor Hstate) as (_ & _ & _ & _ & _ & _ & Hreg).
  pose proof (run_calls_keeps_registered calls _ _ _ Hcalls Hreg) as Hreg2.
  rewrite ctor_unfold.
  destruct (bool_decide (active_bandit_ (snd (run_calls calls w1)) = kNone));
    [done|].
  destruct (fallback args'); [done|].
  destruct (length (implementations args') =? 0)%nat; [done|].
  rewrite Hactive, Hkey.
  pose proof (choose_registered_env (active_bandit_ w0) (key args)
                (costs args') _ Hreg2) as Henv.
  by destruct (DispatchInterface_choose _ _ _ _) as [[c|err] w2].
Qed.


(** X14: [finish] never changes what [choice()] answers, nor the call
    site, the recorded strategy, the start time or whether the session
    measures; the finished flag is set by it exactly for a measuring
    session (also when its [update] throws) and is never cleared. *)
Theorem finish_keeps_the_choice end_ this w :
  SelectImplementation_choice
    (fst (snd (SelectImplementation_finish end_ (this, w))))
  = SelectImplementation_choice this
  /\ entry_point_ (fst (snd (SelectImplementation_finish end_ (this, w))))
     = entry_point_ this
  /\ bandit_type_ (fst (snd (SelectImplementation_finish end_ (this, w))))
     = bandit_type_ this
  /\ start_ (fst (snd (SelectImplementation_finish end_ (this, w))))
     = start_ this
  /\ record_duration_ (fst (snd (SelectImplementation_finish end_ (this, w))))
     = record_duration_ this
  /\ record_finished_ (fst (snd (SelectImplementation_finish end_ (this, w))))
     = record_finished_ this || record_duration_ this.
Proof.
  rewrite finish_unfold.
  destruct (record_duration_ this) eqn:Hdur; cbn [negb].
  - destruct (record_finished_ this) eqn:Hfin.
    + cbn. by rewrite Hdur, Hfin.
    + destruct (DispatchInterface_update _ _ _ _ w) as [[[]|err] w1];
        cbn; by rewrite Hdur.
  - cbn. rewrite Hdur. by destruct (record_finished_ this).
Qed.

(** X15: [choose] and [update] touch one instance only.  The instance
    stored for a key under a strategy is as it was after a [choose] or
    an [update] for another key or under another strategy, whether that
    call returns or throws. *)
Theorem calls_touch_one_instance bandit k' cost_fn choice delta_ns w k :
  (bandit <> kRandomChoice \/ k' <> k ->
   bandits_ (DrunkenBandits
               (snd (DispatchInterface_choose bandit k' cost_fn w))) !! k
   = bandits_ (DrunkenBandits w) !! k
   /\ bandits_ (DrunkenBandits
                  (snd (DispatchInterface_update bandit k' choice delta_ns w)))
        !! k
      = bandits_ (DrunkenBandits w) !! k)
  /\ (bandit <> kGaussian \/ k' <> k ->
      bandits_ (GaussianBandits
                  (snd (DispatchInterface_choose bandit k' cost_fn w))) !! k
      = bandits_ (GaussianBandits w) !! k
      /\ bandits_ (GaussianBandits
                     (snd (DispatchInterface_update bandit k' choice delta_ns
                             w))) !! k
         = bandits_ (GaussianBandits w) !! k).
Proof.
  pose proof (choose_env bandit k' cost_fn w) as (_ & Hd & Hg).
  rewrite Hd, Hg. clear Hd Hg.
  split; intros Hother.
  - destruct bandit; cbn; unfold on_drunken, on_gaussian, zoom.
    + destruct Hother as [?|Hne]; [done|].
      pose proof (get_choose_other k k' cost_fn (drunken_state w) Hne) as Hc.
      pose proof (get_update_other k k' choice delta_ns (drunken_state w) Hne)
        as Hu.
      destruct (get_choose k' cost_fn (drunken_state w)) as [? [? ?]].
      by destruct (get_update k' choice delta_ns (drunken_state w))
        as [? [? ?]].
    + destruct (get_choose k' cost_fn (gaussian_state w)) as [? [? ?]].
      by destruct (get_update k' choice delta_ns (gaussian_state w))
        as [? [? ?]].
    + done.
  - destruct bandit; cbn; unfold on_drunken, on_gaussian, zoom.
    + destruct (get_choose k' cost_fn (drunken_state w)) as [? [? ?]].
      by destruct (get_update k' choice delta_ns (drunken_state w))
        as [? [? ?]].
    + destruct Hother as [?|Hne]; [done|].
      pose proof (get_choose_other k k' cost_fn (gaussian_state w) Hne) as Hc.
      pose proof (get_update_other k k' choice delta_ns (gaussian_state w) Hne)
        as Hu.
      destruct (get_choose k' cost_fn (gaussian_state w)) as [? [? ?]].
      by destruct (get_update k' choice delta_ns (gaussian_state w))
        as [? [? ?]].
    + done.
Qed.

Lemma update_ignores_active_bandit bandit k choice delta_ns b w :
  DispatchInterface_update bandit k choice delta_ns (put_active_bandit b w)
  = (fst (DispatchInterface_update bandit k choice delta_ns w),
     put_active_bandit b
       (snd (DispatchInterface_update bandit k choice delta_ns w))).
Proof.
  destruct bandit; cbn; unfold on_drunken, on_gaussian, zoom; [| |done].
  - change (drunken_state (put_active_bandit b w)) with (drunken_state w).
    by destruct (get_update k choice delta_ns (drunken_state w)).
  - change (gaussian_state (put_active_bandit b w)) with (gaussian_state w).
    by destruct (get_update k choice delta_ns (gaussian_state w)).
Qed.

(** X16: a session reports to the strategy it was given its choice
    by.  Changing the active strategy while the session is open changes
    nothing of what [finish] returns, of the instance it updates or of
    the record it logs: [finish] commutes with [set_active_bandit]. *)
Theorem finish_ignores_the_active_bandit end_ this b w :
  SelectImplementation_finish end_
    (this, snd (DispatchInterface_set_active_bandit b w))
  = (fst (SelectImplementation_finish end_ (this, w)),
     (fst (snd (SelectImplementation_finish end_ (this, w))),
      snd (DispatchInterface_set_active_bandit b
             (snd (snd (SelectImplementation_finish end_ (this, w))))))).
Proof.
  cbn [DispatchInterface_set_active_bandit modify snd].
  rewrite !finish_unfold.
  destruct (record_duration_ this); [|done]. cbn [negb].
  destruct (record_finished_ this); [done|].
  rewrite update_ignores_active_bandit.
  destruct (DispatchInterface_update _ _ _ _ w) as [[[]|err] w1]; [|done].
  cbn [fst snd]. do 2 f_equal.
  unfold logged, logging_register_key, logging_record, modify. cbn.
  by destruct (logging_keys w1 !! _).
Qed.

End DispatchProperties.

End Properties.

(** * The properties on the concrete instance *)

Import Demo.

Lemma Cycling_chooses_real : chooses_real Cycling.
Proof.
  intros b. cbn. unfold nth_impl.
  by destruct (cy_turn b mod 3)%nat as [|[|n]].
Qed.

(** The scenario of the specification: random exploration, one key
    with estimates [10, 20, 30]. *)
Example scenario_first_choose :
  let w := snd (DispatchInterface_choose kRandomChoice K (counting costs_K)
                  world0) in
  fst (DispatchInterface_choose kRandomChoice K (counting costs_K) world0)
    = OK impl0
  /\ env w = 1%nat
  /\ fst (DispatchInterface_update kRandomChoice K impl0 500 w) = OK tt
  /\ fst (DispatchInterface_times_chosen impl0 w) = OK 1
  /\ env (snd (DispatchInterface_choose kRandomChoice K (counting costs_K) w))
     = 1%nat.
Proof. vm_compute. repeat split. Qed.

(** [update] for a key that no [choose] created throws. *)
Example scenario_update_unknown_key :
  fst (DispatchInterface_update kGaussian K impl0 500 gaussian_world)
  = Err KeyNotInMap.
Proof. reflexivity. Qed.

(** C1 on the instance: [K] is new to the empty registry, and
    [later_reg_calls] holds no [reset]. *)
Lemma get_creates_once_then_reuses_witness :
  bandits_ (fst registry0) !! K = None
  /\ forallb (fun c => negb (is_RegReset c)) later_reg_calls = true
  /\ snd (snd (ActiveBandits_get K (counting costs_K) registry0)) = 1%nat
  /\ exists b,
       ActiveBandits_get K (counting [99])
         (run_reg_calls later_reg_calls
            (snd (ActiveBandits_get K (counting costs_K) registry0)))
       = (OK b,
          run_reg_calls later_reg_calls
            (snd (ActiveBandits_get K (counting costs_K) registry0))).
Proof.
  split; [reflexivity|]. split; [reflexivity|].
  destruct (get_creates_once_then_reuses (T := Cycling) K (counting costs_K)
              ActiveBandits_new 0%nat eq_refl) as [Hfirst Hlater].
  split.
  - unfold registry0. rewrite Hfirst. reflexivity.
  - destruct (Hlater later_reg_calls (counting [99]) eq_refl)
      as (b & _ & Hb).
    exists b. exact Hb.
Defined.

(** C2 as stated fails: under [racing_schedule] both threads return,
    yet the estimator has run twice, two instances have been created
    and the key is listed twice. *)
Lemma racing_gets_create_twice :
  ~ (forall sched : list nat,
       forallb has_returned (fst (run_schedule sched two_threads registry0))
         = true ->
       created_once K (counting costs_K) registry0
         (snd (run_schedule sched two_threads registry0))).
Proof.
  intros Hall.
  destruct (Hall racing_schedule eq_refl) as (Henv & _).
  vm_compute in Henv. discriminate Henv.
Qed.

(** What the racing schedule leaves behind. *)
Example racing_schedule_outcome :
  let s := snd (run_schedule racing_schedule two_threads registry0) in
  snd s = 2%nat
  /\ next_seed_ (fst s) = 2
  /\ ordered_keys_ (fst s) = [K; K].
Proof. vm_compute. repeat split. Qed.

(** C2, amended, on the instance: two serial calls. *)
Lemma serial_gets_create_once_witness :
  bandits_ (fst registry0) !! K = None
  /\ (0 < 2)%nat
  /\ forallb has_returned
       (fst (run_schedule (serial_schedule 2) two_threads registry0)) = true
  /\ created_once K (counting costs_K) registry0
       (snd (run_schedule (serial_schedule 2) two_threads registry0)).
Proof.
  split; [reflexivity|]. split; [lia|].
  destruct (serial_gets_create_once (T := Cycling) 2 K (counting costs_K)
              ActiveBandits_new 0%nat eq_refl) as (Hret & Honce & _);
    [lia|].
  split; [exact Hret | exact Honce].
Defined.

(** C3 on the instance: a session built with no strategy active, and a
    session for a fallback-only call site with the Gaussian strategy
    active. *)
Lemma disabled_and_fallback_sessions_do_nothing_witness :
  (active_bandit_ world0 = kNone
   /\ exists this,
        SelectImplementation_ctor entry_K 100 world0 = (OK this, world0)
        /\ session_state this = Disabled
        /\ SelectImplementation_finish 250 (this, world0)
           = (OK tt, (this, world0)))
  /\ (active_bandit_ gaussian_world <> kNone
      /\ fallback fallback_K = true
      /\ exists this,
           SelectImplementation_ctor fallback_K 100 gaussian_world
           = (OK this, gaussian_world)
           /\ session_state this = Fallback
           /\ SelectImplementation_finish 250 (this, gaussian_world)
              = (OK tt, (this, gaussian_world))).
Proof.
  split.
  - split; [reflexivity|].
    destruct (proj1 (disabled_and_fallback_sessions_do_nothing
                       entry_K 100 world0) eq_refl)
      as (this & Hctor & Hstate & _ & _ & Hfinish).
    exists this. repeat split; [exact Hctor | exact Hstate | apply Hfinish].
  - split; [discriminate|]. split; [reflexivity|].
    destruct (proj2 (disabled_and_fallback_sessions_do_nothing
                       fallback_K 100 gaussian_world)
                ltac:(discriminate) eq_refl)
      as (this & Hctor & Hstate & _ & _ & Hfinish).
    exists this. repeat split; [exact Hctor | exact Hstate | apply Hfinish].
Defined.

(** C5 on the instance: the session for [entry_K], the calls of
    [calls_between], then [finish] at time 350 and again at 400. *)
Lemma finish_once_then_double_finish_faults_witness :
  SelectImplementation_ctor entry_K 100 gaussian_world
  = (OK session_K, snd (SelectImplementation_ctor entry_K 100 gaussian_world))
  /\ session_state session_K = Measuring
  /\ forallb (fun c => negb (is_CallReset c)) calls_between = true
  /\ fst (SelectImplementation_finish 350
            (session_K,
             snd (run_calls calls_between
                    (snd (SelectImplementation_ctor entry_K 100
                            gaussian_world)))))
     = OK tt
  /\ forall w3 : DemoWorld,
       SelectImplementation_finish 400 (set_record_finished session_K, w3)
       = (Err FinishCalledTwice, (set_record_finished session_K, w3)).
Proof.
  assert (Hctor : SelectImplementation_ctor entry_K 100 gaussian_world
                  = (OK session_K,
                     snd (SelectImplementation_ctor entry_K 100 gaussian_world)))
    by reflexivity.
  split; [exact Hctor|]. split; [reflexivity|]. split; [reflexivity|].
  destruct (finish_once_then_double_finish_faults entry_K 100 gaussian_world
              session_K
              (snd (SelectImplementation_ctor entry_K 100 gaussian_world))
              calls_between 350 400 Hctor eq_refl eq_refl)
    as (Hfirst & _ & _ & Hsecond).
  split; [by rewrite Hfirst | exact Hsecond].
Defined.

(** C6 on the instance: in [mixed_calls] four [choose] calls return a
    choice (one of them to a session's constructor) and one throws; the
    counters of the real implementations sum to 4. *)
Lemma chosen_counts_sum_to_choose_calls_witness :
  chooses_real Cycling
  /\ counts_wf world0
  /\ forallb (fun c => negb (is_CallReset c)) mixed_calls = true
  /\ total_real_chosen world0 + Z.of_nat (length mixed_calls) < size_t_modulus
  /\ total_real_chosen (snd (run_calls mixed_calls world0))
     = total_real_chosen world0
       + Z.of_nat (choices_returned (fst (run_calls mixed_calls world0)))
  /\ choices_returned (fst (run_calls mixed_calls world0)) = 4%nat.
Proof.
  split; [exact Cycling_chooses_real|].
  split; [apply World_init_counts_wf|].
  split; [reflexivity|]. split; [reflexivity|].
  split; [|reflexivity].
  apply (chosen_counts_sum_to_choose_calls mixed_calls world0
           Cycling_chooses_real Cycling_chooses_real
           (World_init_counts_wf 0%nat) eq_refl eq_refl).
Defined.

(** C7 on the instance: a [choose] that returns, and a [choose] routed
    to a bandit that produces [TOTAL_COUNT]. *)
Lemma choose_never_returns_total_count_witness :
  (DispatchInterface_choose kGaussian K (counting costs_K) world0
   = (OK impl0,
      snd (DispatchInterface_choose kGaussian K (counting costs_K) world0))
   /\ impl0 <> TOTAL_COUNT)
  /\ (fst (choose_switch kRandomChoice K (counting costs_K) broken_world0)
      = OK TOTAL_COUNT
      /\ fst (DispatchInterface_choose kRandomChoice K (counting costs_K)
                broken_world0)
         = Err ChoiceIsTotalCount
      /\ chosen_counts_
           (snd (DispatchInterface_choose kRandomChoice K (counting costs_K)
                   broken_world0))
         = chosen_counts_ broken_world0).
Proof.
  split.
  - assert (Hret : DispatchInterface_choose kGaussian K (counting costs_K)
                     world0
                   = (OK impl0,
                      snd (DispatchInterface_choose kGaussian K
                             (counting costs_K) world0)))
      by reflexivity.
    split; [exact Hret|].
    apply (proj1 (choose_never_returns_total_count kGaussian K
                    (counting costs_K) world0) _ _ Hret).
  - assert (Hcount : fst (choose_switch kRandomChoice K (counting costs_K)
                            broken_world0) = OK TOTAL_COUNT)
      by reflexivity.
    split; [exact Hcount|].
    apply (proj2 (choose_never_returns_total_count kRandomChoice K
                    (counting costs_K) broken_world0) Hcount).
Defined.

(** C8 on the instance: the Gaussian strategy is active and [empty_K]
    declares no implementation. *)
Lemma ctor_without_candidates_faults_witness :
  active_bandit_ gaussian_world <> kNone
  /\ fallback empty_K = false
  /\ implementations empty_K = []
  /\ SelectImplementation_ctor empty_K 100 gaussian_world
     = (Err NoImplementations, gaussian_world).
Proof.
  split; [discriminate|]. split; [reflexivity|]. split; [reflexivity|].
  apply (ctor_without_candidates_faults empty_K 100 gaussian_world);
    [discriminate | reflexivity | reflexivity].
Defined.

(** C10 on the instance: [summarize] at process start, and with the
    Gaussian strategy active. *)
Lemma summarize_requires_active_bandit_witness :
  (active_bandit_ world0 = kNone
   /\ DispatchInterface_summarize world0 = (Err CouldNotSelectBandit, world0))
  /\ (is_OK (fst (DispatchInterface_summarize gaussian_world)) = true
      /\ (active_bandit_ gaussian_world = kRandomChoice
          \/ active_bandit_ gaussian_world = kGaussian)).
Proof.
  split.
  - split; [reflexivity|].
    apply (proj1 (summarize_requires_active_bandit world0) eq_refl).
  - split; [reflexivity|].
    apply (proj2 (summarize_requires_active_bandit gaussian_world) eq_refl).
Defined.

(** * Further properties on the concrete instance *)

(** X3 on the instance: three more calls on a registry that lists [K]
    and 8. *)
Lemma ordered_keys_only_grow_witness :
  forallb (fun c => negb (is_RegReset c)) growing_reg_calls = true
  /\ ordered_keys_ (fst warm_registry)
     `prefix_of` ordered_keys_ (fst (run_reg_calls growing_reg_calls
                                       warm_registry))
  /\ ordered_keys_ (fst (run_reg_calls growing_reg_calls warm_registry))
     = [K; 8%nat; 9%nat].
Proof.
  split; [reflexivity|]. split; [|reflexivity].
  apply (ordered_keys_only_grow growing_reg_calls warm_registry eq_refl).
Defined.

(** X4 on the instance: three threads, two of them for the same key,
    on a registry that holds both keys. *)
Lemma concurrent_hits_are_benign_witness :
  Forall (fun t => th_pc t = PcFind
                   /\ is_Some (bandits_ (fst warm_registry) !! th_key t))
    hit_threads
  /\ snd (run_schedule hit_schedule hit_threads warm_registry) = warm_registry.
Proof.
  assert (Hstart : Forall (fun t => th_pc t = PcFind
                     /\ is_Some (bandits_ (fst warm_registry) !! th_key t))
                     hit_threads).
  { repeat (constructor; [split; [reflexivity | eexists; reflexivity]|]).
    constructor. }
  split; [exact Hstart|].
  apply (concurrent_hits_are_benign hit_schedule hit_threads warm_registry
           Hstart).
Defined.



(** X8 on the instance: the first Gaussian [choose] for [K] returns
    [impl0]. *)
Lemma choose_counts_its_choice_only_witness :
  length (chosen_counts_ gaussian_world) = chosen_counts_size (n_impl := 3)
  /\ DispatchInterface_choose kGaussian K (counting costs_K) gaussian_world
     = (OK impl0, warm_world)
  /\ times_chosen_value impl0 warm_world
     = to_size_t (times_chosen_value impl0 gaussian_world + 1)
  /\ (impl1 <> impl0 ->
      times_chosen_value impl1 warm_world
      = times_chosen_value impl1 gaussian_world).
Proof.
  assert (Hret : DispatchInterface_choose kGaussian K (counting costs_K)
                   gaussian_world = (OK impl0, warm_world)) by reflexivity.
  split; [reflexivity|]. split; [exact Hret|].
  apply (choose_counts_its_choice_only kGaussian K (counting costs_K)
           gaussian_world impl0 warm_world impl1 eq_refl Hret).
Defined.

(** X9 on the instance: an [update] for [K] before any [choose], and
    one after. *)
Lemma update_needs_a_created_instance_witness :
  (registered kGaussian K gaussian_world = false
   /\ DispatchInterface_update kGaussian K impl0 500 gaussian_world
      = (Err KeyNotInMap, gaussian_world))
  /\ (registered kGaussian K warm_world = true
      /\ is_OK (fst (DispatchInterface_update kGaussian K impl0 500
                       warm_world)) = true).
Proof.
  split.
  - split; [reflexivity|].
    apply (proj2 (update_needs_a_created_instance kGaussian K impl0 500
                    gaussian_world) eq_refl).
  - split; [reflexivity|].
    apply (proj2 (proj1 (update_needs_a_created_instance kGaussian K impl0 500
                           warm_world)) eq_refl).
Defined.


(** X12 on the instance: a second call site with the key of [entry_K]
    and an estimator of its own, which is not invoked. *)
Lemma later_sessions_reuse_the_instance_witness :
  SelectImplementation_ctor entry_K 100 gaussian_world
  = (OK session_K, snd (SelectImplementation_ctor entry_K 100 gaussian_world))
  /\ session_state session_K = Measuring
  /\ forallb (fun c => negb (is_CallReset c)) calls_keeping_strategy = true
  /\ active_bandit_
       (snd (run_calls calls_keeping_strategy
               (snd (SelectImplementation_ctor entry_K 100 gaussian_world))))
     = active_bandit_ gaussian_world
  /\ key entry_K' = key entry_K
  /\ env (snd (SelectImplementation_ctor entry_K' 200
                 (snd (run_calls calls_keeping_strategy
                         (snd (SelectImplementation_ctor entry_K 100
                                 gaussian_world))))))
     = env (snd (run_calls calls_keeping_strategy
                   (snd (SelectImplementation_ctor entry_K 100
                           gaussian_world)))).
Proof.
  assert (Hctor : SelectImplementation_ctor entry_K 100 gaussian_world
                  = (OK session_K,
                     snd (SelectImplementation_ctor entry_K 100 gaussian_world)))
    by reflexivity.
  split; [exact Hctor|]. split; [reflexivity|]. split; [reflexivity|].
  split; [reflexivity|]. split; [reflexivity|].
  apply (later_sessions_reuse_the_instance entry_K 100 gaussian_world
           session_K
           (snd (SelectImplementation_ctor entry_K 100 gaussian_world))
           calls_keeping_strategy entry_K' 200 Hctor eq_refl eq_refl
           eq_refl eq_refl).
Defined.


(** X15 on the instance: a Gaussian [choose] and [update] for key 8
    leave the instances stored for [K] alone. *)
Lemma calls_touch_one_instance_witness :
  (kGaussian <> kRandomChoice \/ 8%nat <> K)
  /\ (kGaussian <> kGaussian \/ 8%nat <> K)
  /\ bandits_ (GaussianBandits
                 (snd (DispatchInterface_choose kGaussian 8%nat
                         (counting [1; 2]) warm_world))) !! K
     = bandits_ (GaussianBandits warm_world) !! K
  /\ bandits_ (DrunkenBandits
                 (snd (DispatchInterface_choose kGaussian 8%nat
                         (counting [1; 2]) warm_world))) !! K
     = bandits_ (DrunkenBandits warm_world) !! K.
Proof.
  assert (H1 : kGaussian <> kRandomChoice \/ 8%nat <> K)
    by (left; discriminate).
  assert (H2 : kGaussian <> kGaussian \/ 8%nat <> K)
    by (right; discriminate).
  split; [exact H1|]. split; [exact H2|].
  destruct (calls_touch_one_instance kGaussian 8%nat (counting [1; 2])
              impl0 500 warm_world K) as [Hd Hg].
  split; [exact (proj1 (Hg H2)) | exact (proj1 (Hd H1))].
Defined.
